(** * Microphone frequency analyzer (src/app.vue): model and properties

    A shallow embedding of the [<script setup>] block of [src/app.vue]:
    the five reactive refs, the three module-level handles, and the
    functions [start], [analyzeWithTone], [updateFrequencyBars] and [stop].

    Modelling choices.
    - JavaScript numbers are modelled by [num]: exact rationals extended
      with [NaN], [+Infinity] and [-Infinity], the two signed zeros
      identified.  The program computes in binary64.  [num] agrees with it
      on comparisons, signs, clamping and integrality, and on the index
      arithmetic of the peak frequency (products below 2^53, and a
      quotient a/b with b <= 2^32 is never within one ulp of a
      half-integer unless it is one).  It does not agree on the value of a
      sum, mean or product of samples, which the program rounds: the
      theorems about a published volume or band state signs, bounds and
      dependencies, and exact values only on frames whose arithmetic is
      exact in binary64.  [Binary64] redoes lines 105-110 on binary64
      values and shows the difference.
    - Functions that touch the refs, the handles or the platform are
      written in a state-and-exception monad [M]; [try_catch] is the
      source's try/catch.
    - The platform (Tone.js objects, requestAnimationFrame, the console)
      is a component of the state; which platform call fails is an
      argument ([acquisition], [poll_result]).
    - [start] runs lines 70-94 with the [await] of line 83 settled at
      once, and [handle], [run] and [reachable] are built from it: they
      describe the sessions in which nothing happens while [mic.open()] is
      pending.  The section on the await of line 83 splits [start] there
      ([start_until_await], [start_after_await]) and lets any handler run
      in between ([occur], [attainable]); [serialized_run] relates the
      two.
    - [stop] has release calls ([cancelAnimationFrame], [close],
      [dispose]) that return; [stop_releasing] is the same function with
      release calls that may throw. *)

From Stdlib Require Import String.
From Stdlib Require Import List ZArith QArith Qround Qabs Bool Arith Lia Lqa.
From Stdlib Require SpecFloat.
Import ListNotations.

Local Open Scope string_scope.
Local Open Scope list_scope.
Local Open Scope Q_scope.

(** ** JavaScript numbers *)

Module JsNum.

Inductive num : Type :=
| NaN
| PInf
| NInf
| Fin (q : Q).

Definition of_Z (z : Z) : num := Fin (inject_Z z).
Definition of_nat (n : nat) : num := of_Z (Z.of_nat n).
Definition zero : num := of_Z 0.

(** Half-up rounding of a rational, the real-number reading of
    [Math.round]. *)
Definition round_half_up (q : Q) : Z := Qfloor (q + (1 # 2)).

Definition Qlt_bool (x y : Q) : bool := negb (Qle_bool y x).

(** [a + b] *)
Definition add (a b : num) : num :=
  match a, b with
  | NaN, _ | _, NaN => NaN
  | PInf, NInf | NInf, PInf => NaN
  | PInf, _ | _, PInf => PInf
  | NInf, _ | _, NInf => NInf
  | Fin x, Fin y => Fin (x + y)
  end.

(** An infinity of the sign of [q] times the sign of [inf_pos]; [NaN] when
    [q] is zero. *)
Definition inf_times (inf_pos : bool) (q : Q) : num :=
  match 0 ?= q with
  | Eq => NaN
  | Lt => if inf_pos then PInf else NInf
  | Gt => if inf_pos then NInf else PInf
  end.

(** [a * b] *)
Definition mul (a b : num) : num :=
  match a, b with
  | NaN, _ | _, NaN => NaN
  | PInf, PInf | NInf, NInf => PInf
  | PInf, NInf | NInf, PInf => NInf
  | PInf, Fin y => inf_times true y
  | NInf, Fin y => inf_times false y
  | Fin x, PInf => inf_times true x
  | Fin x, NInf => inf_times false x
  | Fin x, Fin y => Fin (x * y)
  end.

(** [a / b].  A zero divisor is [+0] (every divisor of the program is an
    array length or a literal). *)
Definition div (a b : num) : num :=
  match a, b with
  | NaN, _ | _, NaN => NaN
  | (PInf | NInf), (PInf | NInf) => NaN
  | Fin _, (PInf | NInf) => zero
  | PInf, Fin y => if Qlt_bool y 0 then NInf else PInf
  | NInf, Fin y => if Qlt_bool y 0 then PInf else NInf
  | Fin x, Fin y =>
      if Qeq_bool y 0 then inf_times true x else Fin (x / y)
  end.

(** [Math.abs(a)] *)
Definition abs (a : num) : num :=
  match a with
  | NaN => NaN
  | PInf | NInf => PInf
  | Fin q => Fin (Qabs q)
  end.

(** [a > b]; false as soon as one side is [NaN]. *)
Definition gt (a b : num) : bool :=
  match a, b with
  | NaN, _ | _, NaN => false
  | PInf, PInf => false
  | PInf, _ => true
  | _, PInf => false
  | NInf, _ => false
  | Fin _, NInf => true
  | Fin x, Fin y => Qlt_bool y x
  end.

(** [Math.min(a, b)] *)
Definition min (a b : num) : num :=
  match a, b with
  | NaN, _ | _, NaN => NaN
  | _, _ => if gt a b then b else a
  end.

(** [Math.max(a, b)] *)
Definition max (a b : num) : num :=
  match a, b with
  | NaN, _ | _, NaN => NaN
  | _, _ => if gt b a then b else a
  end.

(** [Math.round(a)] *)
Definition round (a : num) : num :=
  match a with
  | Fin q => of_Z (round_half_up q)
  | other => other
  end.

(** Classification used in the statements. *)
Definition is_nan (a : num) : bool :=
  match a with NaN => true | _ => false end.

(** [a] is a number (not [NaN]) and is at least 0. *)
Definition nonneg (a : num) : Prop :=
  match a with
  | Fin q => 0 <= q
  | PInf => True
  | _ => False
  end.

(** [a] is a finite number in the closed interval [[lo, hi]]. *)
Definition between (lo hi : Q) (a : num) : Prop :=
  match a with
  | Fin q => lo <= q <= hi
  | _ => False
  end.


End JsNum.
Import JsNum.

(** ** State: reactive refs, module-level handles, platform *)

(** Objects handed out by Tone.js, identified by a handle. *)
Inductive resource : Type :=
| Mic (h : nat)        (* a [UserMedia] instance *)
| Analyser (h : nat).  (* an [Analyser] instance *)

Definition resource_eqb (a b : resource) : bool :=
  match a, b with
  | Mic x, Mic y => Nat.eqb x y
  | Analyser x, Analyser y => Nat.eqb x y
  | _, _ => false
  end.

Record state : Type := mkState {
  (* const frequency = ref(0) *)
  frequency : num;
  (* const volume = ref(-100) *)
  volume : num;
  (* const isRecording = ref(false) *)
  isRecording : bool;
  (* const error = ref('') *)
  error : string;
  (* const frequencyBars = ref(Array(32).fill(0)) *)
  frequencyBars : list num;
  (* let mic: UserMedia | null = null *)
  mic : option nat;
  (* let analyser: Analyser | null = null *)
  analyser : option nat;
  (* let animationFrameId: number | null = null *)
  animationFrameId : option nat;
  (* platform: objects constructed and not yet disposed, newest first *)
  live : list resource;
  (* platform: animation-frame requests neither fired nor cancelled *)
  scheduled : list nat;
  (* platform: next handle / request id; ids are never 0 *)
  fresh : nat;
  (* platform: lines written with console.error, newest first *)
  console : list string
}.

Definition initial : state :=
  {| frequency := of_Z 0;
     volume := of_Z (-100);
     isRecording := false;
     error := EmptyString;
     frequencyBars := repeat zero 32;
     mic := None;
     analyser := None;
     animationFrameId := None;
     live := [];
     scheduled := [];
     fresh := 1;
     console := [] |}.

Definition with_frequency (v : num) (s : state) : state :=
  mkState v (volume s) (isRecording s) (error s) (frequencyBars s) (mic s)
    (analyser s) (animationFrameId s) (live s) (scheduled s) (fresh s) (console s).
Definition with_volume (v : num) (s : state) : state :=
  mkState (frequency s) v (isRecording s) (error s) (frequencyBars s) (mic s)
    (analyser s) (animationFrameId s) (live s) (scheduled s) (fresh s) (console s).
Definition with_isRecording (v : bool) (s : state) : state :=
  mkState (frequency s) (volume s) v (error s) (frequencyBars s) (mic s)
    (analyser s) (animationFrameId s) (live s) (scheduled s) (fresh s) (console s).
Definition with_error (v : string) (s : state) : state :=
  mkState (frequency s) (volume s) (isRecording s) v (frequencyBars s) (mic s)
    (analyser s) (animationFrameId s) (live s) (scheduled s) (fresh s) (console s).
Definition with_frequencyBars (v : list num) (s : state) : state :=
  mkState (frequency s) (volume s) (isRecording s) (error s) v (mic s)
    (analyser s) (animationFrameId s) (live s) (scheduled s) (fresh s) (console s).
Definition with_mic (v : option nat) (s : state) : state :=
  mkState (frequency s) (volume s) (isRecording s) (error s) (frequencyBars s) v
    (analyser s) (animationFrameId s) (live s) (scheduled s) (fresh s) (console s).
Definition with_analyser (v : option nat) (s : state) : state :=
  mkState (frequency s) (volume s) (isRecording s) (error s) (frequencyBars s) (mic s)
    v (animationFrameId s) (live s) (scheduled s) (fresh s) (console s).
Definition with_animationFrameId (v : option nat) (s : state) : state :=
  mkState (frequency s) (volume s) (isRecording s) (error s) (frequencyBars s) (mic s)
    (analyser s) v (live s) (scheduled s) (fresh s) (console s).
Definition with_live (v : list resource) (s : state) : state :=
  mkState (frequency s) (volume s) (isRecording s) (error s) (frequencyBars s) (mic s)
    (analyser s) (animationFrameId s) v (scheduled s) (fresh s) (console s).
Definition with_scheduled (v : list nat) (s : state) : state :=
  mkState (frequency s) (volume s) (isRecording s) (error s) (frequencyBars s) (mic s)
    (analyser s) (animationFrameId s) (live s) v (fresh s) (console s).
Definition with_fresh (v : nat) (s : state) : state :=
  mkState (frequency s) (volume s) (isRecording s) (error s) (frequencyBars s) (mic s)
    (analyser s) (animationFrameId s) (live s) (scheduled s) v (console s).
Definition with_console (v : list string) (s : state) : state :=
  mkState (frequency s) (volume s) (isRecording s) (error s) (frequencyBars s) (mic s)
    (analyser s) (animationFrameId s) (live s) (scheduled s) (fresh s) v.

(** ** The state-and-exception monad *)

Inductive outcome (A : Type) : Type :=
| Returned (a : A)
| Thrown (err : string).
Arguments Returned {A} a.
Arguments Thrown {A} err.

Definition M (A : Type) : Type := state -> outcome A * state.

Definition ret {A} (a : A) : M A := fun s => (Returned a, s).

Definition bind {A B} (c : M A) (k : A -> M B) : M B :=
  fun s =>
    match c s with
    | (Returned a, s') => k a s'
    | (Thrown e, s') => (Thrown e, s')
    end.

Definition throw {A} (e : string) : M A := fun s => (Thrown e, s).

(** [try { body } catch (err) { handler }] *)
Definition try_catch {A} (body : M A) (handler : string -> M A) : M A :=
  fun s =>
    match body s with
    | (Returned a, s') => (Returned a, s')
    | (Thrown e, s') => handler e s'
    end.

Definition read {A} (field : state -> A) : M A := fun s => (Returned (field s), s).
Definition write (update : state -> state) : M unit := fun s => (Returned tt, update s).

(** State after running [c]. *)
Definition exec {A} (c : M A) (s : state) : state := snd (c s).
(** How [c] ended. *)
Definition result {A} (c : M A) (s : state) : outcome A := fst (c s).

Declare Scope js_scope.
Delimit Scope js_scope with js.
Notation "x <- c1 ;; c2" := (bind c1 (fun x => c2))
  (at level 61, c1 at next level, right associativity) : js_scope.
Notation "c1 ;; c2" := (bind c1 (fun _ => c2))
  (at level 61, right associativity) : js_scope.
Local Open Scope js_scope.

(** [for (const i of indices) body(i)] *)
Fixpoint for_each (indices : list nat) (body : nat -> M unit) : M unit :=
  match indices with
  | [] => ret tt
  | i :: rest => body i ;; for_each rest body
  end.

(** A loop over [i = 0 .. n-1] that only updates local variables. *)
Definition for_range {A} (n : nat) (body : nat -> A -> A) (init : A) : A :=
  fold_left (fun acc i => body i acc) (seq 0 n) init.

(** ** Platform calls *)

(** What the platform does during one [start()]. *)
Inductive acquisition : Type :=
| Acquired               (* every call succeeds *)
| AnalyserCtorThrows     (* [new Analyser('fft', 2048)] throws *)
| UserMediaCtorThrows    (* [new UserMedia()] throws *)
| ConnectThrows          (* [mic.connect(analyser)] throws *)
| OpenRejects.           (* [await mic.open()] rejects: permission, no device *)

(** What [analyser.getValue()] does in one cycle. *)
Inductive poll_result : Type :=
| GetValueThrows
| GetValueReturns (values : option (list num)).  (* [None] is [null] *)

Definition new_handle : M nat :=
  h <- read fresh ;; write (fun s => with_fresh (S h) s) ;; ret h.

Definition new_Analyser (a : acquisition) : M nat :=
  match a with
  | AnalyserCtorThrows => throw "Analyser"
  | _ => h <- new_handle ;;
         write (fun s => with_live (Analyser h :: live s) s) ;; ret h
  end.

Definition new_UserMedia (a : acquisition) : M nat :=
  match a with
  | UserMediaCtorThrows => throw "UserMedia"
  | _ => h <- new_handle ;;
         write (fun s => with_live (Mic h :: live s) s) ;; ret h
  end.

Definition mic_connect (a : acquisition) (m h : nat) : M unit :=
  match a with
  | ConnectThrows => throw "connect"
  | _ => ret tt
  end.

Definition mic_open (a : acquisition) (m : nat) : M unit :=
  match a with
  | OpenRejects => throw "NotAllowedError"
  | _ => ret tt
  end.

Definition mic_close (m : nat) : M unit := ret tt.

Definition dispose (r : resource) : M unit :=
  write (fun s => with_live (filter (fun x => negb (resource_eqb r x)) (live s)) s).

Definition analyser_getValue (p : poll_result) (h : nat) : M (option (list num)) :=
  match p with
  | GetValueThrows => throw "getValue"
  | GetValueReturns values => ret values
  end.

Definition requestAnimationFrame : M nat :=
  id <- new_handle ;;
  write (fun s => with_scheduled (id :: scheduled s) s) ;; ret id.

Definition cancelAnimationFrame (id : nat) : M unit :=
  write (fun s => with_scheduled (filter (fun x => negb (Nat.eqb id x)) (scheduled s)) s).

Definition console_error (line : string) : M unit :=
  write (fun s => with_console (line :: console s) s).

(** ** The program *)

(** [values[i]] as it is used by the source, always under [Math.abs]: a read
    past the end gives [undefined], which [Math.abs] turns into [NaN]. *)
Definition get (values : list num) (i : nat) : num := nth i values NaN.

(** [arr[i] = v]: replaces inside the array, appends at [i = arr.length],
    and beyond that leaves holes (rendered here as [NaN]; the source writes
    the indices 0..31 in ascending order, so it never creates one). *)
Definition array_set (i : nat) (v : num) (arr : list num) : list num :=
  if Nat.ltb i (length arr)
  then firstn i arr ++ v :: skipn (S i) arr
  else arr ++ repeat NaN (i - length arr) ++ [v].

(** [const volumePercentage = computed(...)], lines 65-68. *)
Definition volumePercentage (s : state) : num :=
  max (of_Z 0) (min (of_Z 100) (add (volume s) (of_Z 100))).

(** The value stored in bar [i], lines 141-150. *)
Definition bar_value (values : list num) (samplesPerBar i : nat) : num :=
  let sum :=
    for_range samplesPerBar
      (fun j sum =>
         let index := (i * samplesPerBar + j)%nat in
         if Nat.ltb index (length values)
         then add sum (abs (get values index))
         else sum)
      zero in
  let average := div sum (of_nat samplesPerBar) in
  min (of_Z 100) (mul average (of_Z 500)).

(** [function updateFrequencyBars(values)], lines 136-152. *)
Definition updateFrequencyBars (values : list num) : M unit :=
  let bars := 32%nat in
  let samplesPerBar := (length values / bars)%nat in
  for_each (seq 0 bars)
    (fun i =>
       write (fun s =>
                with_frequencyBars
                  (array_set i (bar_value values samplesPerBar i) (frequencyBars s)) s)).

(** [function stop()], lines 154-174, with release calls that return.
    [if (animationFrameId)] is false for [null] and for the number 0. *)
Definition stop : M unit :=
  id <- read animationFrameId ;;
  match id with
  | Some (S n) =>
      cancelAnimationFrame (S n) ;;
      write (with_animationFrameId None)
  | _ => ret tt
  end ;;
  m <- read mic ;;
  match m with
  | Some h =>
      mic_close h ;;
      dispose (Mic h) ;;
      write (with_mic None)
  | None => ret tt
  end ;;
  a <- read analyser ;;
  match a with
  | Some h =>
      dispose (Analyser h) ;;
      write (with_analyser None)
  | None => ret tt
  end ;;
  write (with_isRecording false) ;;
  write (with_frequencyBars (repeat zero 32)).

(** The accumulation of lines 105-108. *)
Definition sum_abs (values : list num) : num :=
  for_range (length values) (fun i sum => add sum (abs (get values i))) zero.

(** The search of lines 116-123; returns [(maxIndex, maxValue)]. *)
Definition find_peak (values : list num) : nat * num :=
  for_range (length values)
    (fun i '(maxIndex, maxValue) =>
       if gt (abs (get values i)) maxValue
       then (i, abs (get values i))
       else (maxIndex, maxValue))
    (0%nat, zero).

(** [function analyzeWithTone()], lines 96-134. *)
Definition analyzeWithTone (p : poll_result) : M unit :=
  a <- read analyser ;;
  recording <- read isRecording ;;
  match a with
  | None => ret tt
  | Some h =>
      if negb recording then ret tt
      else
        try_catch
          (values <- analyser_getValue p h ;;
           match values with
           | Some values =>
               if Nat.ltb 0 (length values) then
                 let sum := sum_abs values in
                 let average := div sum (of_nat (length values)) in
                 write (with_volume (round (mul average (of_Z 1000)))) ;;
                 updateFrequencyBars values ;;
                 let maxIndex := fst (find_peak values) in
                 write (with_frequency
                          (round (div (mul (of_nat maxIndex) (div (of_Z 44100) (of_Z 2)))
                                      (of_nat (length values)))))
               else ret tt
           | None => ret tt
           end ;;
           id <- requestAnimationFrame ;;
           write (with_animationFrameId (Some id)))
          (fun err =>
             console_error "Analysis error:" ;;
             stop)
  end.

(** [async function start()], lines 70-94, for a call during which no
    other handler runs: [mic.open()] settles as soon as it is called. *)
Definition start (acq : acquisition) (p : poll_result) : M unit :=
  recording <- read isRecording ;;
  if recording then ret tt
  else
    try_catch
      (write (with_error EmptyString) ;;
       a <- new_Analyser acq ;;
       write (with_analyser (Some a)) ;;
       m <- new_UserMedia acq ;;
       write (with_mic (Some m)) ;;
       mic_connect acq m a ;;
       mic_open acq m ;;
       write (with_isRecording true) ;;
       analyzeWithTone p)
      (fun err =>
         console_error "Error with Tone.js:" ;;
         write (with_error
                  "Failed to access microphone. Please check permissions and try again.") ;;
         write (with_isRecording false)).

(** The browser runs a requested animation-frame callback: the request
    leaves the queue and [analyzeWithTone] runs.  Nothing happens when no
    request is waiting. *)
Definition fire_animation_frame (p : poll_result) : M unit :=
  q <- read scheduled ;;
  match q with
  | [] => ret tt
  | id :: rest =>
      write (with_scheduled rest) ;;
      analyzeWithTone p
  end.

(** What can happen to the component: the two buttons, a display refresh,
    and [onUnmounted], which calls [stop]. *)
Inductive event : Type :=
| ClickStart (acq : acquisition) (p : poll_result)
| ClickStop
| AnimationFrame (p : poll_result)
| Unmounted.

Definition handle (e : event) : M unit :=
  match e with
  | ClickStart acq p => start acq p
  | ClickStop => stop
  | AnimationFrame p => fire_animation_frame p
  | Unmounted => stop
  end.

Definition run (events : list event) (s : state) : state :=
  fold_left (fun st e => exec (handle e) st) events s.

(** States the component can be in when every [mic.open()] settles
    before the next event. *)
Inductive reachable : state -> Prop :=
| reachable_initial : reachable initial
| reachable_step s e : reachable s -> reachable (exec (handle e) s).

(** ** Vocabulary of the properties *)

Definition audio_held (s : state) : Prop := exists h, In (Mic h) (live s).
Definition transform_held (s : state) : Prop := exists h, In (Analyser h) (live s).

(** The recording flag tells whether the two resources are held. *)
Definition flag_matches_resources (s : state) : Prop :=
  (isRecording s = true -> audio_held s /\ transform_held s) /\
  (isRecording s = false -> ~ audio_held s /\ ~ transform_held s).

(** The documented defaults of the three published metrics. *)
Definition metrics_at_defaults (s : state) : Prop :=
  frequency s = of_Z 0 /\ volume s = of_Z (-100) /\ frequencyBars s = repeat zero 32.

(** Nothing is held and nothing is pending. *)
Definition stopped (s : state) : Prop :=
  isRecording s = false /\ mic s = None /\ analyser s = None /\
  animationFrameId s = None.

(** ** Running the program *)

Lemma for_range_S {A} (n : nat) (body : nat -> A -> A) (init : A) :
  for_range (S n) body init = body n (for_range n body init).
Proof.
  unfold for_range. rewrite seq_S, fold_left_app. reflexivity.
Qed.

(** The array stored by [updateFrequencyBars], as a function of the array
    found. *)
Definition bars_written (values : list num) (indices : list nat) (arr : list num) : list num :=
  fold_left
    (fun arr i => array_set i (bar_value values (length values / 32)%nat i) arr)
    indices arr.

Lemma for_each_bars (values : list num) (indices : list nat) (s : state) :
  for_each indices
    (fun i =>
       write (fun s =>
                with_frequencyBars
                  (array_set i (bar_value values (length values / 32)%nat i)
                     (frequencyBars s)) s)) s
  = (Returned tt,
     with_frequencyBars (bars_written values indices (frequencyBars s)) s).
Proof.
  revert s. induction indices as [| i rest IH]; intros s.
  - destruct s; reflexivity.
  - cbn [for_each]. unfold bind at 1. unfold write at 1.
    rewrite IH. destruct s; reflexivity.
Qed.

Lemma updateFrequencyBars_run (values : list num) (s : state) :
  updateFrequencyBars values s
  = (Returned tt,
     with_frequencyBars (bars_written values (seq 0 32) (frequencyBars s)) s).
Proof. unfold updateFrequencyBars. apply for_each_bars. Qed.

(** [stop] never throws, and this is all it changes. *)
Lemma stop_run (s : state) :
  stop s =
  (Returned tt,
   {| frequency := frequency s;
      volume := volume s;
      isRecording := false;
      error := error s;
      frequencyBars := repeat zero 32;
      mic := None;
      analyser := None;
      animationFrameId :=
        match animationFrameId s with Some (S _) => None | other => other end;
      live :=
        (let l1 := match mic s with
                   | Some h => filter (fun x => negb (resource_eqb (Mic h) x)) (live s)
                   | None => live s
                   end in
         match analyser s with
         | Some h => filter (fun x => negb (resource_eqb (Analyser h) x)) l1
         | None => l1
         end);
      scheduled :=
        match animationFrameId s with
        | Some (S n) => filter (fun x => negb (Nat.eqb (S n) x)) (scheduled s)
        | _ => scheduled s
        end;
      fresh := fresh s;
      console := console s |}).
Proof.
  destruct s as [f v r e b m a id l q n c].
  destruct id as [[| k] |], m, a; reflexivity.
Qed.

(** The state published by a cycle that received the non-empty frame
    [values], before the next cycle is requested. *)
Definition published (values : list num) (s : state) : state :=
  with_frequency
    (round (div (mul (of_nat (fst (find_peak values))) (div (of_Z 44100) (of_Z 2)))
                (of_nat (length values))))
    (with_frequencyBars (bars_written values (seq 0 32) (frequencyBars s))
       (with_volume
          (round (mul (div (sum_abs values) (of_nat (length values))) (of_Z 1000))) s)).

(** The request for the next cycle, line 129. *)
Definition rescheduled (s : state) : state :=
  with_animationFrameId (Some (fresh s))
    (with_scheduled (fresh s :: scheduled s) (with_fresh (S (fresh s)) s)).

(** What a cycle on a non-empty frame leaves in the three metrics. *)
Lemma published_frequency (values : list num) (s : state) :
  frequency (rescheduled (published values s))
  = round (div (mul (of_nat (fst (find_peak values))) (div (of_Z 44100) (of_Z 2)))
               (of_nat (length values))).
Proof. reflexivity. Qed.

Lemma published_volume (values : list num) (s : state) :
  volume (rescheduled (published values s))
  = round (mul (div (sum_abs values) (of_nat (length values))) (of_Z 1000)).
Proof. reflexivity. Qed.

Lemma published_bars (values : list num) (s : state) :
  frequencyBars (rescheduled (published values s))
  = bars_written values (seq 0 32) (frequencyBars s).
Proof. reflexivity. Qed.

(** Equations of the monad, used to step through a function body. *)
Lemma bind_write {B} (f : state -> state) (k : unit -> M B) (s : state) :
  bind (write f) k s = k tt (f s).
Proof. reflexivity. Qed.

Lemma bind_read {A B} (g : state -> A) (k : A -> M B) (s : state) :
  bind (read g) k s = k (g s) s.
Proof. reflexivity. Qed.

Lemma bind_ret {A B} (a : A) (k : A -> M B) (s : state) :
  bind (ret a) k s = k a s.
Proof. reflexivity. Qed.

Lemma bind_bind {A B C} (c : M A) (k : A -> M B) (k' : B -> M C) (s : state) :
  bind (bind c k) k' s = bind c (fun a => bind (k a) k') s.
Proof. unfold bind. destruct (c s) as [[a | e] s']; reflexivity. Qed.

Lemma bind_updateFrequencyBars {B} (values : list num) (k : unit -> M B) (s : state) :
  bind (updateFrequencyBars values) k s
  = k tt (with_frequencyBars (bars_written values (seq 0 32) (frequencyBars s)) s).
Proof. unfold bind. rewrite updateFrequencyBars_run. reflexivity. Qed.

Section Cycle.

Variable s : state.
Variable h : nat.
Hypothesis Hanalyser : analyser s = Some h.
Hypothesis Hrecording : isRecording s = true.

Lemma cycle_frame (values : list num) :
  values <> [] ->
  analyzeWithTone (GetValueReturns (Some values)) s
  = (Returned tt, rescheduled (published values s)).
Proof.
  intros Hne.
  unfold analyzeWithTone.
  rewrite !bind_read, Hanalyser, Hrecording. cbn [negb].
  unfold try_catch, analyser_getValue. rewrite bind_ret.
  destruct values as [| x xs]; [congruence |].
  replace (0 <? length (x :: xs))%nat with true by reflexivity.
  cbv iota. unfold published.
  generalize (round (mul (div (sum_abs (x :: xs)) (of_nat (length (x :: xs))))
                         (of_Z 1000))).
  generalize (round (div (mul (of_nat (fst (find_peak (x :: xs))))
                              (div (of_Z 44100) (of_Z 2)))
                         (of_nat (length (x :: xs))))).
  intros frq vol.
  rewrite bind_bind, bind_write, bind_bind, bind_updateFrequencyBars.
  change (frequencyBars (with_volume vol s)) with (frequencyBars s).
  generalize (bars_written (x :: xs) (seq 0 32) (frequencyBars s)).
  intros bw. clear. destruct s; reflexivity.
Qed.

Lemma cycle_no_frame (values : option (list num)) :
  values = None \/ values = Some [] ->
  analyzeWithTone (GetValueReturns values) s = (Returned tt, rescheduled s).
Proof.
  intros Hv.
  unfold analyzeWithTone.
  rewrite !bind_read, Hanalyser, Hrecording. cbn [negb].
  destruct Hv; subst; clear; destruct s; reflexivity.
Qed.

Lemma cycle_throws :
  analyzeWithTone GetValueThrows s
  = stop (with_console ("Analysis error:" :: console s) s).
Proof.
  unfold analyzeWithTone.
  rewrite !bind_read, Hanalyser, Hrecording. reflexivity.
Qed.

End Cycle.

(** Outside a session the callback returns at its first line. *)
Lemma cycle_guard (p : poll_result) (s : state) :
  analyser s = None \/ isRecording s = false ->
  analyzeWithTone p s = (Returned tt, s).
Proof.
  intros H. unfold analyzeWithTone. rewrite !bind_read.
  destruct H as [-> | ->]; [reflexivity |].
  destruct (analyser s); reflexivity.
Qed.

(** No exception leaves [analyzeWithTone] when the release calls of
    [stop] return. *)
Lemma analyzeWithTone_returns (p : poll_result) (s : state) :
  analyzeWithTone p s = (Returned tt, exec (analyzeWithTone p) s).
Proof.
  unfold exec.
  destruct (analyser s) as [h |] eqn:Ha; [| rewrite cycle_guard; auto].
  destruct (isRecording s) eqn:Hr; [| rewrite cycle_guard; auto].
  destruct p as [| [[| x xs] |]].
  - rewrite (cycle_throws s h Ha Hr), stop_run. reflexivity.
  - rewrite (cycle_no_frame s h Ha Hr); auto.
  - rewrite (cycle_frame s h Ha Hr); [reflexivity | discriminate].
  - rewrite (cycle_no_frame s h Ha Hr); auto.
Qed.

(** The state after lines 74-84 when every platform call succeeds. *)
Definition acquired (s : state) : state :=
  {| frequency := frequency s;
     volume := volume s;
     isRecording := true;
     error := EmptyString;
     frequencyBars := frequencyBars s;
     mic := Some (S (fresh s));
     analyser := Some (fresh s);
     animationFrameId := animationFrameId s;
     live := Mic (S (fresh s)) :: Analyser (fresh s) :: live s;
     scheduled := scheduled s;
     fresh := S (S (fresh s));
     console := console s |}.

Lemma start_recording (acq : acquisition) (p : poll_result) (s : state) :
  isRecording s = true -> start acq p s = (Returned tt, s).
Proof.
  intros H. unfold start. rewrite bind_read, H. reflexivity.
Qed.

Lemma start_acquired (p : poll_result) (s : state) :
  isRecording s = false ->
  start Acquired p s = analyzeWithTone p (acquired s).
Proof.
  intros H. unfold start. rewrite bind_read, H.
  unfold try_catch.
  replace ((write (with_error EmptyString);;
            a <- new_Analyser Acquired;;
            write (with_analyser (Some a));;
            m <- new_UserMedia Acquired;;
            write (with_mic (Some m));;
            mic_connect Acquired m a;;
            mic_open Acquired m;;
            write (with_isRecording true);; analyzeWithTone p) s)
    with (analyzeWithTone p (acquired s)) by (destruct s; reflexivity).
  rewrite analyzeWithTone_returns. reflexivity.
Qed.

(** The message of line 91. *)
Definition microphone_message : string :=
  "Failed to access microphone. Please check permissions and try again.".

(** What a failed [start] leaves behind, by the call that failed. *)
Lemma start_failed (acq : acquisition) (p : poll_result) (s : state) :
  isRecording s = false ->
  acq <> Acquired ->
  start acq p s =
  (Returned tt,
   let n := fresh s in
   let made_analyser := match acq with AnalyserCtorThrows => false | _ => true end in
   let made_mic :=
     match acq with AnalyserCtorThrows | UserMediaCtorThrows => false | _ => true end in
   {| frequency := frequency s;
      volume := volume s;
      isRecording := false;
      error := microphone_message;
      frequencyBars := frequencyBars s;
      mic := if made_mic then Some (S n) else mic s;
      analyser := if made_analyser then Some n else analyser s;
      animationFrameId := animationFrameId s;
      live := (if made_mic then [Mic (S n)] else [])
              ++ (if made_analyser then [Analyser n] else [])
              ++ live s;
      scheduled := scheduled s;
      fresh := (if made_mic then 2 else if made_analyser then 1 else 0) + n;
      console := "Error with Tone.js:" :: console s |}).
Proof.
  intros H Hacq. unfold start. rewrite bind_read, H.
  destruct s; destruct acq; try congruence; reflexivity.
Qed.

(** ** Session lifecycle *)

Lemma resource_eqb_refl (r : resource) : resource_eqb r r = true.
Proof. destruct r; cbn; apply Nat.eqb_refl. Qed.

Lemma not_in_after_dispose (r : resource) (l : list resource) :
  ~ In r (filter (fun x => negb (resource_eqb r x)) l).
Proof.
  rewrite filter_In. intros [_ H]. rewrite resource_eqb_refl in H. discriminate.
Qed.

Lemma in_filter_weaken {A} (f : A -> bool) (x : A) (l : list A) :
  In x (filter f l) -> In x l.
Proof. rewrite filter_In. tauto. Qed.

Lemma not_in_after_cancel (id : nat) (q : list nat) :
  ~ In id (filter (fun x => negb (Nat.eqb id x)) q).
Proof.
  rewrite filter_In. intros [_ H]. rewrite Nat.eqb_refl in H. discriminate.
Qed.

(** A session that published a reading, used as the concrete input of the
    examples below: one cycle on the two-sample frame [0, 1]. *)
Definition short_session : list event :=
  [ClickStart Acquired (GetValueReturns (Some [of_Z 0; of_Z 1]))].

Example short_session_reading :
  let s := run short_session initial in
  isRecording s = true /\ frequency s = of_Z 11025 /\ volume s = of_Z 500.
Proof. vm_compute. auto. Qed.

(** C1: [stop()] after a session that published a reading.  Line 172
    announces a reset of the visualization and line 173 resets the bands
    only: [stop()] assigns neither frequency nor volume, in any state.
    After the session on the frame [0, 1] the panel still shows 11025 Hz
    and volume 500, where the claim has the defaults 0 and -100. *)
Theorem stop_keeps_last_reading :
  (forall s, frequency (exec stop s) = frequency s /\
             volume (exec stop s) = volume s /\
             frequencyBars (exec stop s) = repeat zero 32) /\
  (let before := run short_session initial in
   let after := run (short_session ++ [ClickStop]) initial in
   isRecording before = true /\ isRecording after = false /\
   frequencyBars after = repeat zero 32 /\
   frequency after = of_Z 11025 /\ volume after = of_Z 500 /\
   ~ metrics_at_defaults after).
Proof.
  split.
  - intros s. unfold exec. rewrite stop_run. repeat split.
  - cbv zeta.
    split; [reflexivity |]. split; [reflexivity |].
    split; [vm_compute; reflexivity |].
    split; [vm_compute; reflexivity |].
    split; [vm_compute; reflexivity |].
    intros [H _]. vm_compute in H. discriminate.
Qed.

(** What [stop()] does to the metrics, in every state: all 32 bands are
    set to 0, frequency and volume are not assigned. *)
Lemma stop_resets_bars_only (s : state) :
  let s' := exec stop s in
  frequencyBars s' = repeat zero 32 /\
  length (frequencyBars s') = 32%nat /\
  frequency s' = frequency s /\
  volume s' = volume s /\
  (metrics_at_defaults s' <-> frequency s = of_Z 0 /\ volume s = of_Z (-100)).
Proof.
  unfold exec. rewrite stop_run. cbn [snd frequencyBars frequency volume].
  unfold metrics_at_defaults. cbn [frequencyBars frequency volume].
  repeat split; tauto.
Qed.

(** C2: [getValue()] throws in the second cycle of a session.  The catch
    of lines 130-133 logs and calls [stop()]: the session is stopped and
    released, but the error field stays empty, so the user is told
    nothing.  The sibling catch of [start()], lines 89-93, publishes the
    microphone message on its failures. *)
Theorem analysis_failure_publishes_no_message :
  let before := run short_session initial in
  let after := exec (handle (AnimationFrame GetValueThrows)) before in
  let sibling := exec (start OpenRejects GetValueThrows) initial in
  isRecording before = true /\
  isRecording after = false /\
  mic after = None /\ analyser after = None /\
  live after = [] /\ scheduled after = [] /\
  console after = ["Analysis error:"] /\
  error after = EmptyString /\
  error sibling = microphone_message /\ error sibling <> EmptyString.
Proof. vm_compute. repeat split; discriminate. Qed.

(** What the catch of lines 130-133 does, in every running state: the
    exception is logged and [stop()] runs; the error field is not
    assigned. *)
Lemma analysis_failure_stops_session (s : state) (h : nat) :
  analyser s = Some h ->
  isRecording s = true ->
  let s' := exec (analyzeWithTone GetValueThrows) s in
  result (analyzeWithTone GetValueThrows) s = Returned tt /\
  isRecording s' = false /\
  mic s' = None /\ analyser s' = None /\
  ~ In (Analyser h) (live s') /\
  (forall m, mic s = Some m -> ~ In (Mic m) (live s')) /\
  (forall n, animationFrameId s = Some (S n) ->
             animationFrameId s' = None /\ ~ In (S n) (scheduled s')) /\
  frequencyBars s' = repeat zero 32 /\
  console s' = "Analysis error:" :: console s /\
  error s' = error s /\
  (forall p, analyzeWithTone p s' = (Returned tt, s')).
Proof.
  intros Ha Hr. unfold exec, result.
  rewrite (cycle_throws s h Ha Hr), stop_run.
  cbn [fst snd isRecording mic analyser live animationFrameId scheduled
       frequencyBars console error with_console].
  rewrite Ha.
  repeat split.
  - apply not_in_after_dispose.
  - intros m Hm. rewrite Hm. intros Hin.
    apply in_filter_weaken in Hin. revert Hin. apply not_in_after_dispose.
  - rewrite H. reflexivity.
  - rewrite H. apply not_in_after_cancel.
Qed.

(** C3: [mic.open()] rejects on the first [start()].  The message is
    published and the flag is false, but the analyser and the microphone
    object stay referenced and undisposed; a second rejected [start()]
    overwrites the handles and leaves four objects behind. *)
Theorem failed_start_keeps_resources :
  let s1 := exec (start OpenRejects (GetValueReturns None)) initial in
  let s2 := exec (start OpenRejects (GetValueReturns None)) s1 in
  error s1 = microphone_message /\ error s1 <> EmptyString /\
  isRecording s1 = false /\
  mic s1 = Some 2%nat /\ analyser s1 = Some 1%nat /\
  live s1 = [Mic 2; Analyser 1] /\
  live s2 = [Mic 4; Analyser 3; Mic 2; Analyser 1].
Proof. vm_compute. repeat split; discriminate. Qed.

(** C4: the flag-and-resources invariant holds initially and is broken by
    a [start()] whose [mic.open()] rejects: the flag is false while both
    resources are held. *)
Theorem failed_start_breaks_invariant :
  let s1 := exec (start OpenRejects (GetValueReturns None)) initial in
  flag_matches_resources initial /\
  isRecording s1 = false /\ audio_held s1 /\ transform_held s1 /\
  ~ flag_matches_resources s1.
Proof.
  assert (Ha : audio_held (exec (start OpenRejects (GetValueReturns None)) initial))
    by (exists 2%nat; vm_compute; auto).
  assert (Ht : transform_held (exec (start OpenRejects (GetValueReturns None)) initial))
    by (exists 1%nat; vm_compute; auto).
  cbv zeta. split; [| split; [| split; [| split]]].
  - split; [discriminate |]. intros _. split; intros [h []].
  - reflexivity.
  - exact Ha.
  - exact Ht.
  - intros [_ H]. destruct (H eq_refl) as [Hn _]. exact (Hn Ha).
Qed.

(** X22: [stop] twice is [stop] once, in every state, recording or not. *)
Lemma stop_idempotent (s : state) : exec stop (exec stop s) = exec stop s.
Proof.
  unfold exec. rewrite (stop_run s). cbn [snd]. rewrite stop_run.
  cbn [snd frequency volume error mic analyser animationFrameId live scheduled
       fresh console].
  destruct (animationFrameId s) as [[| n] |]; reflexivity.
Qed.

(** C8: a second [stop()] in the stopped state that follows a session with
    a published reading (the session on the frame [0, 1], then [stop()]).
    The second [stop()] raises nothing and changes nothing, and so the
    metrics are not at their defaults afterwards: [stop()] resets the
    bands only, and frequency 11025 and volume 500 stay published. *)
Theorem stop_again_keeps_last_reading :
  let s := run (short_session ++ [ClickStop]) initial in
  stopped s /\ result stop s = Returned tt /\ exec stop s = s /\
  isRecording (exec stop s) = false /\ error (exec stop s) = error s /\
  frequencyBars (exec stop s) = repeat zero 32 /\
  frequency (exec stop s) = of_Z 11025 /\ volume (exec stop s) = of_Z 500 /\
  ~ metrics_at_defaults (exec stop s).
Proof.
  cbv zeta.
  split; [vm_compute; auto |].
  split; [vm_compute; reflexivity |].
  split; [vm_compute; reflexivity |].
  split; [vm_compute; reflexivity |].
  split; [vm_compute; reflexivity |].
  split; [vm_compute; reflexivity |].
  split; [vm_compute; reflexivity |].
  split; [vm_compute; reflexivity |].
  intros [H _]. vm_compute in H. discriminate.
Qed.

(** [stop()] in a state with the flag false, both handles null and no
    request held: nothing is raised, the platform is not touched, the
    bands are set to 0 and frequency and volume stay as they were. *)
Lemma stop_when_stopped (s : state) :
  stopped s ->
  let s' := exec stop s in
  result stop s = Returned tt /\
  isRecording s' = false /\
  error s' = error s /\
  frequencyBars s' = repeat zero 32 /\
  frequency s' = frequency s /\
  volume s' = volume s /\
  live s' = live s /\ scheduled s' = scheduled s /\ console s' = console s /\
  stopped s' /\
  (metrics_at_defaults s -> metrics_at_defaults s' /\ s' = s).
Proof.
  intros (Hr & Hm & Ha & Hid). unfold exec, result. rewrite stop_run.
  destruct s as [f v r e b m a id l q n c].
  cbn in Hr, Hm, Ha, Hid. subst.
  cbn. unfold stopped, metrics_at_defaults. cbn.
  repeat split; try tauto.
  destruct H as (_ & _ & ->). reflexivity.
Qed.

(** C9: when [getValue()] returns [null] or a zero-length frame, the cycle
    raises nothing, leaves frequency, volume and bands as published before,
    sets no error and logs nothing; in a running session it goes on to
    request the next cycle. *)
Theorem empty_frame_is_no_update (s : state) (values : option (list num)) :
  values = None \/ values = Some [] ->
  let s' := exec (analyzeWithTone (GetValueReturns values)) s in
  result (analyzeWithTone (GetValueReturns values)) s = Returned tt /\
  frequency s' = frequency s /\
  volume s' = volume s /\
  frequencyBars s' = frequencyBars s /\
  error s' = error s /\
  isRecording s' = isRecording s /\
  console s' = console s /\
  (isRecording s = true -> analyser s <> None ->
   animationFrameId s' = Some (fresh s) /\ In (fresh s) (scheduled s')).
Proof.
  intros Hv. unfold exec, result.
  destruct (analyser s) as [h |] eqn:Ha.
  - destruct (isRecording s) eqn:Hr.
    + rewrite (cycle_no_frame s h Ha Hr values Hv).
      unfold rescheduled. cbn. rewrite Hr. repeat split. now left.
    + rewrite cycle_guard by auto. cbn. rewrite Hr.
      repeat split; discriminate.
  - rewrite cycle_guard by auto. cbn. repeat split; congruence.
Qed.

Lemma empty_frame_is_no_update_witness :
  let s := run short_session initial in
  let s' := exec (analyzeWithTone (GetValueReturns (Some []))) s in
  frequency s' = of_Z 11025 /\ volume s' = of_Z 500 /\ error s' = EmptyString.
Proof.
  pose proof (empty_frame_is_no_update (run short_session initial) (Some [])
                (or_intror eq_refl)) as H.
  cbv zeta in H. destruct H as (_ & Hf & Hv & _ & He & _).
  cbv zeta. rewrite Hf, Hv, He. vm_compute. auto.
Defined.

(** ** The flag and the resources on the other paths *)

(** The handles, the live objects and the flag agree. *)
Definition tidy (s : state) : Prop :=
  if isRecording s
  then exists m a, mic s = Some m /\ analyser s = Some a /\ live s = [Mic m; Analyser a]
  else mic s = None /\ analyser s = None /\ live s = [].


Lemma tidy_flag (s : state) : tidy s -> flag_matches_resources s.
Proof.
  unfold tidy, flag_matches_resources, audio_held, transform_held.
  destruct (isRecording s).
  - intros (m & a & _ & _ & ->). split; [| discriminate].
    intros _. split; [exists m | exists a]; cbn; auto.
  - intros (_ & _ & ->). split; [discriminate |].
    intros _. split; intros [h []].
Qed.




(** Every published array of bands has 32 entries. *)
Lemma array_set_length (i : nat) (v : num) (arr : list num) :
  (i < length arr)%nat -> length (array_set i v arr) = length arr.
Proof.
  intros Hi. unfold array_set.
  destruct (Nat.ltb_spec i (length arr)); [| lia].
  rewrite length_app, firstn_length_le by lia.
  cbn [length]. rewrite length_skipn. lia.
Qed.

(** ** Order and sign of numbers *)

Lemma Qlt_bool_iff (x y : Q) : Qlt_bool x y = true <-> x < y.
Proof.
  unfold Qlt_bool. rewrite negb_true_iff.
  destruct (Qle_bool y x) eqn:E.
  - apply Qle_bool_iff in E. split; [discriminate | intros H; lra].
  - split; [intros _ | reflexivity].
    apply Qnot_le_lt. intros H. apply Qle_bool_iff in H. congruence.
Qed.

Lemma Qlt_bool_false (x y : Q) : Qlt_bool x y = false <-> y <= x.
Proof.
  destruct (Qlt_bool x y) eqn:E.
  - apply Qlt_bool_iff in E. split; [discriminate | intros H; lra].
  - split; [intros _ | reflexivity].
    apply Qnot_lt_le. intros H. apply Qlt_bool_iff in H. congruence.
Qed.

Ltac order_cases :=
  cbn in *; try reflexivity; try discriminate; try tauto;
  repeat match goal with
         | H : Qlt_bool _ _ = true |- _ => apply Qlt_bool_iff in H
         | H : Qlt_bool _ _ = false |- _ => apply Qlt_bool_false in H
         end;
  try (apply Qlt_bool_iff; lra); try (apply Qlt_bool_false; lra).

Lemma gt_irrefl (a : num) : gt a a = false.
Proof. destruct a; order_cases. Qed.

Lemma gt_asym (a b : num) : gt a b = true -> gt b a = false.
Proof. destruct a, b; intros H; order_cases. Qed.

Lemma gt_trans (a b c : num) : gt a b = true -> gt b c = true -> gt a c = true.
Proof. destruct a, b, c; intros H1 H2; order_cases. Qed.

(** [a <= b < c] gives [c > a], for a number [a]. *)
Lemma gt_le_lt (a b c : num) :
  is_nan a = false -> gt a b = false -> gt c b = true -> gt c a = true.
Proof. destruct a, b, c; intros Hn H1 H2; order_cases. Qed.

(** [a <= b <= c] gives [a <= c], for a number [b]. *)
Lemma le_trans (a b c : num) :
  is_nan b = false -> gt a b = false -> gt b c = false -> gt a c = false.
Proof. destruct a, b, c; intros Hn H1 H2; order_cases. Qed.

Lemma nonneg_not_nan (a : num) : nonneg a -> is_nan a = false.
Proof. destruct a; cbn; tauto. Qed.

Lemma nonneg_gt_zero (a : num) : nonneg a -> gt zero a = false.
Proof. destruct a; cbn; try tauto. intros H. apply Qlt_bool_false. exact H. Qed.

Lemma abs_nonneg (a : num) : is_nan a = false -> nonneg (abs a).
Proof. destruct a; cbn; try discriminate; auto. intros _. apply Qabs_nonneg. Qed.

Lemma add_nonneg (a b : num) : nonneg a -> nonneg b -> nonneg (add a b).
Proof. destruct a, b; cbn; try tauto. intros; lra. Qed.

Lemma Qeq_bool_of_pos (n : nat) :
  (0 < n)%nat -> Qeq_bool (inject_Z (Z.of_nat n)) 0 = false.
Proof.
  intros Hn. destruct (Qeq_bool _ _) eqn:E; [| reflexivity].
  apply Qeq_bool_iff in E. unfold Qeq in E. cbn in E. lia.
Qed.

Lemma inject_nat_pos (n : nat) : (0 < n)%nat -> 0 < inject_Z (Z.of_nat n).
Proof. intros Hn. unfold Qlt. cbn. lia. Qed.

Lemma div_nonneg (a : num) (n : nat) :
  (0 < n)%nat -> nonneg a -> nonneg (div a (of_nat n)).
Proof.
  intros Hn. destruct a; cbn; try tauto.
  - intros _. destruct (Qlt_bool _ _) eqn:E; [| exact I].
    apply Qlt_bool_iff in E. pose proof (inject_nat_pos n Hn). lra.
  - rewrite Qeq_bool_of_pos by exact Hn. cbn. intros Hq.
    apply Qle_shift_div_l; [apply inject_nat_pos, Hn | lra].
Qed.

Lemma mul_nonneg_literal (a : num) (z : Z) :
  (0 < z)%Z -> nonneg a -> nonneg (mul a (of_Z z)).
Proof.
  intros Hz. assert (Hq : 0 < inject_Z z) by (unfold Qlt; cbn; lia).
  destruct a; cbn; try tauto.
  - intros _. unfold inf_times.
    destruct (0 ?= inject_Z z) eqn:E; cbn; auto.
    + apply Qeq_alt in E. lra.
    + apply Qgt_alt in E. lra.
  - intros H. apply Qmult_le_0_compat; lra.
Qed.

Lemma min_100_between (a : num) :
  nonneg a -> between 0 100 (min (of_Z 100) a).
Proof.
  destruct a; cbn; try tauto.
  - intros _. split; discriminate.
  - intros Hq. destruct (Qlt_bool q (inject_Z 100)) eqn:E; cbn.
    + apply Qlt_bool_iff in E. change (inject_Z 100) with 100 in E. lra.
    + split; discriminate.
Qed.

(** ** Bands *)

Lemma for_range_invariant {A} (P : A -> Prop) (n : nat) (body : nat -> A -> A) (init : A) :
  P init ->
  (forall i acc, (i < n)%nat -> P acc -> P (body i acc)) ->
  P (for_range n body init).
Proof.
  intros H0 Hstep. induction n as [| n IH]; [exact H0 |].
  rewrite for_range_S. apply Hstep; [lia |]. apply IH.
  intros i acc Hi. apply Hstep. lia.
Qed.

Definition no_nan (values : list num) : Prop :=
  Forall (fun v => is_nan v = false) values.

Lemma get_no_nan (values : list num) (i : nat) :
  no_nan values -> (i < length values)%nat -> is_nan (get values i) = false.
Proof.
  intros Hall Hi. unfold no_nan in Hall. rewrite Forall_forall in Hall.
  apply Hall. unfold get. apply nth_In. exact Hi.
Qed.

Lemma bar_value_between (values : list num) (samplesPerBar i : nat) :
  no_nan values -> (0 < samplesPerBar)%nat ->
  between 0 100 (bar_value values samplesPerBar i).
Proof.
  intros Hall Hspb. unfold bar_value.
  apply min_100_between, mul_nonneg_literal; [lia |].
  apply div_nonneg; [exact Hspb |].
  apply for_range_invariant.
  - apply Qle_refl.
  - intros j acc _ Hacc.
    destruct (Nat.ltb_spec (i * samplesPerBar + j) (length values)) as [Hlt | _].
    + apply add_nonneg; [exact Hacc |].
      apply abs_nonneg, get_no_nan; assumption.
    + exact Hacc.
Qed.

Lemma array_set_nth (i k : nat) (v d : num) (arr : list num) :
  (i < length arr)%nat ->
  nth k (array_set i v arr) d = if Nat.eqb k i then v else nth k arr d.
Proof.
  intros Hi. unfold array_set.
  destruct (Nat.ltb_spec i (length arr)); [| lia].
  destruct (Nat.eqb_spec k i) as [-> | Hne].
  - rewrite app_nth2; rewrite firstn_length_le by lia; [| lia].
    rewrite Nat.sub_diag. reflexivity.
  - destruct (Nat.lt_ge_cases k i) as [Hlt | Hge].
    + rewrite app_nth1 by (rewrite firstn_length_le; lia).
      rewrite nth_firstn. destruct (Nat.ltb_spec k i); [reflexivity | lia].
    + rewrite app_nth2; rewrite firstn_length_le by lia; [| lia].
      destruct (k - i)%nat as [| m] eqn:E; [lia |].
      cbn [nth]. rewrite nth_skipn. f_equal. lia.
Qed.

(** Writing [f i] at every index of [indices]: the length is kept and the
    written cells satisfy what every [f i] satisfies. *)
Lemma array_writes (P : num -> Prop) (f : nat -> num) (indices : list nat) :
  forall (arr : list num) (done : nat -> Prop),
    (forall i, In i indices -> (i < length arr)%nat /\ P (f i)) ->
    (forall k, done k -> P (nth k arr NaN)) ->
    let r := fold_left (fun a i => array_set i (f i) a) indices arr in
    length r = length arr /\
    forall k, done k \/ In k indices -> P (nth k r NaN).
Proof.
  induction indices as [| i rest IH]; intros arr done Hin Hdone; cbn.
  - split; [reflexivity |]. intros k [Hk | []]. apply Hdone, Hk.
  - destruct (Hin i (or_introl eq_refl)) as [Hi HP].
    specialize (IH (array_set i (f i) arr) (fun k => done k \/ k = i)).
    cbn in IH. rewrite array_set_length in IH by exact Hi.
    destruct IH as [Hlen Hall].
    + intros j Hj. apply Hin. now right.
    + intros k Hk. rewrite array_set_nth by exact Hi.
      destruct (Nat.eqb_spec k i); [exact HP |].
      destruct Hk as [Hk | Hk]; [apply Hdone, Hk | contradiction].
    + split; [exact Hlen |].
      intros k [Hk | [Hk | Hk]]; apply Hall; auto.
Qed.

Lemma bars_written_length (values arr : list num) :
  length arr = 32%nat -> length (bars_written values (seq 0 32) arr) = 32%nat.
Proof.
  intros Hlen. unfold bars_written.
  destruct (array_writes (fun _ => True)
              (fun i => bar_value values (length values / 32)%nat i)
              (seq 0 32) arr (fun _ => False)) as [H _].
  - intros i Hi. apply in_seq in Hi. split; [lia | exact I].
  - intros k [].
  - rewrite H. exact Hlen.
Qed.

(** The bands of every state the component can reach have 32 entries. *)
Lemma reachable_bars_length (s : state) :
  reachable s -> length (frequencyBars s) = 32%nat.
Proof.
  induction 1 as [| s e Hs IH]; [reflexivity |].
  assert (Hstop : forall t, length (frequencyBars (exec stop t)) = 32%nat)
    by (intros t; unfold exec; rewrite stop_run; reflexivity).
  assert (Hcycle : forall p t, length (frequencyBars t) = 32%nat ->
                               length (frequencyBars (exec (analyzeWithTone p) t)) = 32%nat).
  { intros p t Ht. unfold exec.
    destruct (analyser t) as [h |] eqn:Ha; [| rewrite cycle_guard; auto].
    destruct (isRecording t) eqn:Hr; [| rewrite cycle_guard; auto].
    destruct p as [| [[| x xs] |]].
    - rewrite (cycle_throws t h Ha Hr). apply (Hstop (with_console _ t)).
    - rewrite (cycle_no_frame t h Ha Hr); auto.
    - rewrite (cycle_frame t h Ha Hr) by discriminate.
      cbn [snd]. rewrite published_bars. apply bars_written_length, Ht.
    - rewrite (cycle_no_frame t h Ha Hr); auto. }
  destruct e as [acq p | | p |]; cbn [handle]; auto.
  - destruct (isRecording s) eqn:Hr.
    + unfold exec. rewrite start_recording by exact Hr. exact IH.
    + destruct acq;
        try (unfold exec; rewrite start_failed by (auto; discriminate); exact IH).
      unfold exec. rewrite start_acquired by exact Hr.
      apply (Hcycle p (acquired s)). exact IH.
  - unfold fire_animation_frame, exec. rewrite bind_read.
    destruct (scheduled s) as [| id rest]; [exact IH |].
    rewrite bind_write. apply Hcycle. exact IH.
Qed.

(** A running session receives a one-sample frame. *)
Definition one_sample_cycle : state :=
  exec (analyzeWithTone (GetValueReturns (Some [Fin (1 # 2)])))
       (run short_session initial).

(** A running session receives 32 samples, the first of them [NaN]. *)
Definition nan_sample_cycle : state :=
  exec (analyzeWithTone (GetValueReturns (Some (NaN :: repeat zero 31))))
       (run short_session initial).

(** C5, as stated, fails: a frame of fewer than 32 samples has
    [samplesPerBar = 0], so every band is [0 / 0 = NaN], which is not in
    [[0, 100]]; and a [NaN] sample makes its band [NaN]. *)
Lemma bands_outside_range :
  (length (frequencyBars one_sample_cycle) = 32%nat /\
   frequencyBars one_sample_cycle = repeat NaN 32 /\
   ~ Forall (between 0 100) (frequencyBars one_sample_cycle))
  /\
  (frequencyBars nan_sample_cycle = NaN :: repeat (Fin (0 # 1)) 31 /\
   ~ Forall (between 0 100) (frequencyBars nan_sample_cycle)).
Proof.
  assert (H1 : frequencyBars one_sample_cycle = repeat NaN 32)
    by (vm_compute; reflexivity).
  assert (H2 : frequencyBars nan_sample_cycle = NaN :: repeat (Fin (0 # 1)) 31)
    by (vm_compute; reflexivity).
  rewrite H1, H2. repeat split.
  - intros Hall. inversion Hall as [| x l Hx _]. exact Hx.
  - intros Hall. inversion Hall as [| x l Hx _]. exact Hx.
Qed.

(** C5 (amended): a cycle of a running session that receives a frame of at
    least 32 samples, none of them [NaN], publishes exactly 32 bands, each
    a number in [[0, 100]]. *)
Theorem bands_in_range (s : state) (h : nat) (values : list num) :
  reachable s ->
  analyser s = Some h ->
  isRecording s = true ->
  (32 <= length values)%nat ->
  no_nan values ->
  let s' := exec (analyzeWithTone (GetValueReturns (Some values))) s in
  length (frequencyBars s') = 32%nat /\
  Forall (between 0 100) (frequencyBars s').
Proof.
  intros Hs Ha Hr Hlen Hall. unfold exec.
  rewrite (cycle_frame s h Ha Hr) by (destruct values; [cbn in Hlen; lia | discriminate]).
  cbn [snd]. rewrite published_bars.
  pose proof (reachable_bars_length s Hs) as H32.
  assert (Hspb : (0 < length values / 32)%nat).
  { apply Nat.div_str_pos. lia. }
  split; [apply bars_written_length; exact H32 |].
  apply Forall_nth. intros k d Hk.
  rewrite bars_written_length in Hk by exact H32.
  rewrite (nth_indep _ d NaN) by (rewrite bars_written_length; assumption).
  unfold bars_written.
  apply (array_writes (between 0 100)
           (fun i => bar_value values (length values / 32)%nat i)
           (seq 0 32) (frequencyBars s) (fun _ => False)).
  - intros i Hi. apply in_seq in Hi. split; [lia |].
    apply bar_value_between; assumption.
  - intros j [].
  - right. apply in_seq. lia.
Qed.

Lemma bands_in_range_witness :
  let values := repeat (of_Z (-80)) 64 in
  let s' := exec (analyzeWithTone (GetValueReturns (Some values)))
                 (run short_session initial) in
  length (frequencyBars s') = 32%nat /\ Forall (between 0 100) (frequencyBars s').
Proof.
  apply (bands_in_range (run short_session initial) 1 (repeat (of_Z (-80)) 64)).
  - apply (reachable_step initial (ClickStart Acquired (GetValueReturns (Some [of_Z 0; of_Z 1])))).
    apply reachable_initial.
  - reflexivity.
  - reflexivity.
  - vm_compute. lia.
  - unfold no_nan. apply Forall_forall. intros v Hv.
    apply repeat_spec in Hv. subst. reflexivity.
Defined.

(** ** Peak frequency *)

(** The sample rate assumed by line 126. *)
Definition sampleRate : Q := 44100.

(** [round(index * (sampleRate / 2) / frameLength)] over the rationals. *)
Definition bin_to_hz (index frameLength : nat) : Z :=
  round_half_up
    (inject_Z (Z.of_nat index) * (sampleRate / 2) / inject_Z (Z.of_nat frameLength)).

Lemma frequency_expression (i len : nat) :
  (0 < len)%nat ->
  round (div (mul (of_nat i) (div (of_Z 44100) (of_Z 2))) (of_nat len))
  = of_Z (bin_to_hz i len).
Proof.
  intros Hlen.
  change (div (of_Z 44100) (of_Z 2)) with (Fin (sampleRate / 2)).
  change (mul (of_nat i) (Fin (sampleRate / 2)))
    with (Fin (inject_Z (Z.of_nat i) * (sampleRate / 2))).
  unfold div, of_nat, of_Z. rewrite Qeq_bool_of_pos by exact Hlen.
  reflexivity.
Qed.

(** The same value in integer arithmetic. *)
Lemma bin_to_hz_integer (i len : nat) :
  (0 < len)%nat ->
  bin_to_hz i len = ((44100 * Z.of_nat i + Z.of_nat len) / (2 * Z.of_nat len))%Z.
Proof.
  intros Hlen. unfold bin_to_hz, round_half_up, sampleRate.
  rewrite Zdiv_Qdiv. apply Qfloor_comp.
  rewrite inject_Z_plus, !inject_Z_mult.
  assert (H : ~ inject_Z (Z.of_nat len) == 0).
  { pose proof (inject_nat_pos len Hlen). lra. }
  change (inject_Z 44100) with 44100. change (inject_Z 2) with 2.
  field. exact H.
Qed.

Lemma bin_to_hz_bounds (i len : nat) :
  (i < len)%nat -> (0 <= bin_to_hz i len <= 22050)%Z.
Proof.
  intros Hi. rewrite bin_to_hz_integer by lia. split.
  - apply Z.div_pos; lia.
  - apply Z.lt_succ_r. apply Z.div_lt_upper_bound; lia.
Qed.

Lemma find_peak_bound (values : list num) :
  values <> [] -> (fst (find_peak values) < length values)%nat.
Proof.
  intros Hne. unfold find_peak.
  apply (for_range_invariant (fun acc => (fst acc < length values)%nat)).
  - destruct values; [congruence | cbn; lia].
  - intros i [mi mv] Hi Hacc.
    destruct (gt (abs (get values i)) mv); [exact Hi | exact Hacc].
Qed.

Lemma peak_frequency_bounds (values : list num) :
  values <> [] ->
  exists z,
    round (div (mul (of_nat (fst (find_peak values))) (div (of_Z 44100) (of_Z 2)))
               (of_nat (length values))) = of_Z z
    /\ (0 <= z <= 22050)%Z.
Proof.
  intros Hne. pose proof (find_peak_bound values Hne) as Hb.
  exists (bin_to_hz (fst (find_peak values)) (length values)). split.
  - apply frequency_expression. lia.
  - apply bin_to_hz_bounds, Hb.
Qed.

(** The published frequency is an integer between 0 and 22050. *)
Definition frequency_ok (s : state) : Prop :=
  exists z, frequency s = of_Z z /\ (0 <= z <= 22050)%Z.

(** A cycle keeps the frequency in range, whatever [getValue()] does. *)
Lemma cycle_frequency_ok (p : poll_result) (s : state) :
  frequency_ok s -> frequency_ok (exec (analyzeWithTone p) s).
Proof.
  intros Hs. unfold exec.
  destruct (analyser s) as [h |] eqn:Ha; [| rewrite cycle_guard; auto].
  destruct (isRecording s) eqn:Hr; [| rewrite cycle_guard; auto].
  destruct p as [| [[| x xs] |]].
  - rewrite (cycle_throws s h Ha Hr), stop_run. exact Hs.
  - rewrite (cycle_no_frame s h Ha Hr); auto.
  - rewrite (cycle_frame s h Ha Hr) by discriminate.
    unfold frequency_ok. cbn [snd]. rewrite published_frequency.
    apply peak_frequency_bounds. discriminate.
  - rewrite (cycle_no_frame s h Ha Hr); auto.
Qed.

(** In every state the component can reach, the published frequency is an
    integer between 0 and 22050. *)
Lemma reachable_frequency (s : state) : reachable s -> frequency_ok s.
Proof.
  induction 1 as [| s e Hs IH].
  - exists 0%Z. split; [reflexivity | lia].
  - assert (Hstop : frequency_ok (exec stop s))
      by (unfold exec; rewrite stop_run; exact IH).
    destruct e as [acq p | | p |]; cbn [handle]; try exact Hstop.
    + destruct (isRecording s) eqn:Hr.
      * unfold exec. rewrite start_recording by exact Hr. exact IH.
      * destruct acq;
          try (unfold exec; rewrite start_failed by (auto; discriminate); exact IH).
        unfold exec. rewrite start_acquired by exact Hr.
        apply (cycle_frequency_ok p (acquired s)). exact IH.
    + unfold fire_animation_frame, exec. rewrite bind_read.
      destruct (scheduled s) as [| id rest]; [exact IH |].
      rewrite bind_write. apply (cycle_frequency_ok p (with_scheduled rest s)).
      exact IH.
Qed.

(** C6: an analysis cycle of a running session that receives a non-empty
    frame publishes, whatever the samples are, an integer frequency between
    0 and 22050 = 44100 / 2; and in every state the component can reach,
    the frequency is in that range after a cycle on any frame, empty and
    null frames included. *)
Theorem frequency_in_range (s : state) :
  (forall h values,
      analyser s = Some h ->
      isRecording s = true ->
      values <> [] ->
      frequency_ok (exec (analyzeWithTone (GetValueReturns (Some values))) s))
  /\
  (reachable s ->
   forall values,
     frequency_ok (exec (analyzeWithTone (GetValueReturns values)) s)).
Proof.
  split.
  - intros h values Ha Hr Hne. unfold exec.
    rewrite (cycle_frame s h Ha Hr values Hne).
    unfold frequency_ok. cbn [snd]. rewrite published_frequency.
    apply peak_frequency_bounds, Hne.
  - intros Hs values. apply cycle_frequency_ok, reachable_frequency, Hs.
Qed.

Lemma frequency_in_range_witness :
  frequency_ok
    (exec (analyzeWithTone (GetValueReturns (Some [NaN; PInf; of_Z 3])))
          (run short_session initial))
  /\
  frequency_ok
    (exec (analyzeWithTone (GetValueReturns (Some [])))
          (run short_session initial)).
Proof.
  destruct (frequency_in_range (run short_session initial)) as [Hframe Hany].
  split.
  - apply (Hframe 1%nat); [reflexivity | reflexivity | discriminate].
  - apply Hany.
    apply (reachable_step initial
             (ClickStart Acquired (GetValueReturns (Some [of_Z 0; of_Z 1])))).
    apply reachable_initial.
Defined.

(** [|values[j]|] *)
Definition magnitude (values : list num) (j : nat) : num := abs (get values j).

(** Sample [i] attains the maximum absolute magnitude: it is a number and
    no sample exceeds it ([NaN] exceeds nothing). *)
Definition attains_max (values : list num) (i : nat) : Prop :=
  (i < length values)%nat /\
  is_nan (magnitude values i) = false /\
  forall j, (j < length values)%nat ->
            gt (magnitude values j) (magnitude values i) = false.

(** [i] is the lowest index attaining the maximum absolute magnitude. *)
Definition loudest_first (values : list num) (i : nat) : Prop :=
  attains_max values i /\
  forall j, (j < i)%nat -> ~ attains_max values j.

(** Some sample has a magnitude above zero. *)
Definition some_positive (values : list num) : Prop :=
  exists j, (j < length values)%nat /\ gt (magnitude values j) zero = true.

Lemma loudest_first_unique (values : list num) (i i' : nat) :
  loudest_first values i -> loudest_first values i' -> i = i'.
Proof.
  intros [Hi Hlow] [Hi' Hlow'].
  destruct (Nat.lt_trichotomy i i') as [Hlt | [Heq | Hgt]]; [| exact Heq |].
  - destruct (Hlow' i Hlt Hi).
  - destruct (Hlow i' Hgt Hi').
Qed.

Lemma gt_number_l (a b : num) : gt a b = true -> is_nan a = false.
Proof. destruct a; cbn; [discriminate | reflexivity ..]. Qed.

Section PeakSearch.

Variable values : list num.

Let body (i : nat) (acc : nat * num) : nat * num :=
  let '(maxIndex, maxValue) := acc in
  if gt (abs (get values i)) maxValue
  then (i, abs (get values i))
  else (maxIndex, maxValue).

(** What the search knows after looking at the first [n] samples: either
    nothing above zero was seen and the initial values stand, or
    [maxIndex] is the first of the largest magnitudes seen. *)
Definition searched (n : nat) (acc : nat * num) : Prop :=
  let '(maxIndex, maxValue) := acc in
  (maxIndex = 0%nat /\ maxValue = zero /\
   forall j, (j < n)%nat -> gt (magnitude values j) zero = false)
  \/
  ((maxIndex < n)%nat /\ maxValue = magnitude values maxIndex /\
   gt maxValue zero = true /\
   (forall j, (j < n)%nat -> gt (magnitude values j) maxValue = false) /\
   (forall j, (j < maxIndex)%nat ->
              is_nan (magnitude values j) = true
              \/ gt maxValue (magnitude values j) = true)).

(** [a <= b < c] for a number [a], or [a] is [NaN]: [a] does not exceed
    [c], and is [NaN] or below [c]. *)
Lemma below_new_maximum (a b c : num) :
  gt a b = false -> gt c b = true ->
  gt a c = false /\ (is_nan a = true \/ gt c a = true).
Proof.
  intros Hab Hcb. destruct (is_nan a) eqn:Hn.
  - destruct a; try discriminate. split; [reflexivity | now left].
  - pose proof (gt_le_lt a b c Hn Hab Hcb) as H.
    split; [apply gt_asym, H | now right].
Qed.

Lemma search_step (n : nat) (acc : nat * num) :
  searched n acc -> searched (S n) (body n acc).
Proof.
  destruct acc as [mi mv]. unfold searched, body.
  fold (magnitude values n).
  intros [(-> & -> & Hle) | (Hmi & -> & Hpos & Hle & Hlow)].
  - destruct (gt (magnitude values n) zero) eqn:E.
    + right. repeat split; auto.
      * intros j Hj. destruct (Nat.eq_dec j n) as [-> | Hne]; [apply gt_irrefl |].
        apply (below_new_maximum _ zero); [apply Hle; lia | exact E].
      * intros j Hj. apply (below_new_maximum _ zero); [apply Hle; lia | exact E].
    + left. repeat split. intros j Hj.
      destruct (Nat.eq_dec j n) as [-> | Hne]; [exact E | apply Hle; lia].
  - destruct (gt (magnitude values n) (magnitude values mi)) eqn:E.
    + right. repeat split; auto.
      * apply (gt_trans _ (magnitude values mi)); assumption.
      * intros j Hj. destruct (Nat.eq_dec j n) as [-> | Hne]; [apply gt_irrefl |].
        apply (below_new_maximum _ (magnitude values mi)); [apply Hle; lia | exact E].
      * intros j Hj.
        apply (below_new_maximum _ (magnitude values mi)); [apply Hle; lia | exact E].
    + right. repeat split; auto.
      intros j Hj.
      destruct (Nat.eq_dec j n) as [-> | Hne]; [exact E | apply Hle; lia].
Qed.

Lemma search_prefix (n : nat) : searched n (for_range n body (0%nat, zero)).
Proof.
  induction n as [| n IH].
  - left. repeat split. intros j Hj. lia.
  - rewrite for_range_S. apply search_step, IH.
Qed.

Lemma search_complete : searched (length values) (find_peak values).
Proof. exact (search_prefix (length values)). Qed.

(** Nothing above zero in the frame: the initial [maxIndex = 0] stands. *)
Lemma find_peak_all_zero :
  (forall j, (j < length values)%nat -> gt (magnitude values j) zero = false) ->
  fst (find_peak values) = 0%nat.
Proof.
  intros Hzero. pose proof search_complete as H.
  destruct (find_peak values) as [mi mv]. cbn [fst].
  destruct H as [(-> & _) | (Hmi & -> & Hpos & _)]; [reflexivity |].
  rewrite (Hzero mi Hmi) in Hpos. discriminate.
Qed.

Lemma find_peak_loudest_first :
  values <> [] ->
  no_nan values \/ some_positive values ->
  loudest_first values (fst (find_peak values)).
Proof.
  intros Hne Hcase.
  assert (Hlen : (0 < length values)%nat) by (destruct values; [congruence | cbn; lia]).
  pose proof search_complete as H.
  destruct (find_peak values) as [mi mv]. cbn [fst].
  destruct H as [(-> & -> & Hle) | (Hmi & -> & Hpos & Hle & Hlow)].
  - destruct Hcase as [Hnumbers | (j & Hj & Hpos)];
      [| rewrite (Hle j Hj) in Hpos; discriminate].
    assert (H0 : nonneg (magnitude values 0))
      by (apply abs_nonneg, get_no_nan; assumption).
    split; [| intros j Hj; lia].
    split; [exact Hlen |]. split; [apply nonneg_not_nan, H0 |].
    intros j Hj. apply (le_trans _ zero); auto.
    apply nonneg_gt_zero, H0.
  - split.
    + split; [exact Hmi |]. split; [| exact Hle].
      apply (gt_number_l _ zero), Hpos.
    + intros j Hj (_ & Hnum & Hmax).
      destruct (Hlow j Hj) as [Hnan | Hgt]; [congruence |].
      rewrite (Hmax mi Hmi) in Hgt. discriminate.
Qed.

End PeakSearch.

(** The frame of scenario B: 2048 samples, all zero except a 1 at index
    1024. *)
Definition scenario_B : list num :=
  repeat zero 1024 ++ [of_Z 1] ++ repeat zero 1023.

Lemma scenario_B_frequency :
  round (div (mul (of_nat (fst (find_peak scenario_B))) (div (of_Z 44100) (of_Z 2)))
             (of_nat (length scenario_B))) = of_Z 11025.
Proof. vm_compute. reflexivity. Qed.

Lemma scenario_B_positive : some_positive scenario_B.
Proof. exists 1024%nat. split; [vm_compute; lia | vm_compute; reflexivity]. Qed.

(** A frame that starts with [NaN] and holds no magnitude above zero. *)
Definition leading_nan : list num := [NaN; zero].

Lemma leading_nan_loudest : loudest_first leading_nan 1.
Proof.
  split.
  - split; [cbn; lia |]. split; [reflexivity |].
    intros [| [| j]] Hj; [reflexivity | reflexivity | cbn in Hj; lia].
  - intros j Hj (_ & Hnum & _).
    assert (j = 0%nat) as -> by lia. discriminate.
Qed.

(** C7, as stated, fails: on the frame [NaN, 0] the only index attaining
    the maximum magnitude is 1, which maps to 11025 Hz, but line 119 never
    succeeds, [maxIndex] stays 0 and 0 Hz is published. *)
Lemma leading_nan_publishes_zero :
  let s' := exec (analyzeWithTone (GetValueReturns (Some leading_nan)))
                 (run short_session initial) in
  frequency s' = of_Z 0 /\
  bin_to_hz 1 (length leading_nan) = 11025%Z /\
  ~ exists i, loudest_first leading_nan i /\
              frequency s' = of_Z (bin_to_hz i (length leading_nan)).
Proof.
  assert (Hf : frequency (exec (analyzeWithTone (GetValueReturns (Some leading_nan)))
                               (run short_session initial)) = of_Z 0)
    by (vm_compute; reflexivity).
  cbv zeta. rewrite Hf. split; [reflexivity |]. split; [reflexivity |].
  intros (i & Hi & Heq).
  rewrite (loudest_first_unique _ _ _ Hi leading_nan_loudest) in Heq.
  vm_compute in Heq. discriminate.
Qed.

(** C7 (amended): in a running session, a cycle that receives a non-empty
    frame with no [NaN] sample, or with some sample of magnitude above
    zero, publishes [round(i * (sampleRate / 2) / frameLength)], where [i]
    is the lowest index attaining the maximum absolute magnitude (first
    index wins on ties; [NaN] samples never win); a frame with no
    magnitude above zero publishes 0 Hz; and the 2048-sample frame with a
    single 1 at index 1024 gives 11025 Hz. *)
Theorem peak_frequency_formula (s : state) (h : nat) :
  analyser s = Some h ->
  isRecording s = true ->
  (forall values,
      values <> [] ->
      no_nan values \/ some_positive values ->
      exists i,
        loudest_first values i /\
        frequency (exec (analyzeWithTone (GetValueReturns (Some values))) s)
        = of_Z (bin_to_hz i (length values)))
  /\
  (forall values,
      values <> [] ->
      ~ some_positive values ->
      frequency (exec (analyzeWithTone (GetValueReturns (Some values))) s) = of_Z 0)
  /\
  (length scenario_B = 2048%nat /\
   loudest_first scenario_B 1024 /\
   frequency (exec (analyzeWithTone (GetValueReturns (Some scenario_B))) s)
   = of_Z 11025).
Proof.
  intros Ha Hr.
  assert (Hpub : forall values,
             values <> [] ->
             frequency (exec (analyzeWithTone (GetValueReturns (Some values))) s)
             = of_Z (bin_to_hz (fst (find_peak values)) (length values))).
  { intros values Hne. unfold exec. rewrite (cycle_frame s h Ha Hr values Hne).
    cbn [snd]. rewrite published_frequency.
    apply frequency_expression.
    destruct values; [congruence | cbn; lia]. }
  split; [| split].
  - intros values Hne Hcase.
    exists (fst (find_peak values)). split; [| apply Hpub, Hne].
    apply find_peak_loudest_first; assumption.
  - intros values Hne Hzero. rewrite (Hpub values Hne).
    assert (Hlen : (0 < length values)%nat)
      by (destruct values; [congruence | cbn; lia]).
    rewrite find_peak_all_zero.
    + rewrite bin_to_hz_integer by exact Hlen.
      rewrite Z.div_small by lia. reflexivity.
    + intros j Hj. destruct (gt (magnitude values j) zero) eqn:E; [| reflexivity].
      destruct Hzero. exists j. auto.
  - split; [reflexivity |]. split.
    + replace 1024%nat with (fst (find_peak scenario_B)) by (vm_compute; reflexivity).
      apply find_peak_loudest_first; [discriminate |].
      right. exact scenario_B_positive.
    + rewrite Hpub by discriminate.
      rewrite <- frequency_expression by (vm_compute; lia).
      apply scenario_B_frequency.
Qed.

Lemma peak_frequency_formula_witness :
  (exists i,
      loudest_first [of_Z 2; of_Z (-3); of_Z 3] i /\
      frequency (exec (analyzeWithTone
                         (GetValueReturns (Some [of_Z 2; of_Z (-3); of_Z 3])))
                      (run short_session initial))
      = of_Z (bin_to_hz i 3))
  /\
  frequency (exec (analyzeWithTone (GetValueReturns (Some leading_nan)))
                  (run short_session initial)) = of_Z 0
  /\
  frequency (exec (analyzeWithTone (GetValueReturns (Some scenario_B)))
                  (run short_session initial)) = of_Z 11025.
Proof.
  destruct (peak_frequency_formula (run short_session initial) 1 eq_refl eq_refl)
    as (Hgeneral & Hzero & _ & _ & HB).
  split; [| split; [| exact HB]].
  - apply (Hgeneral [of_Z 2; of_Z (-3); of_Z 3]); [discriminate |].
    left. repeat constructor.
  - apply Hzero; [discriminate |].
    intros (j & Hj & Hpos).
    destruct j as [| [| j]]; [discriminate | discriminate | cbn in Hj; lia].
Defined.

(** ** Volume *)

Lemma for_range_ext {A} (n : nat) (f g : nat -> A -> A) (init : A) :
  (forall i acc, (i < n)%nat -> f i acc = g i acc) ->
  for_range n f init = for_range n g init.
Proof.
  intros H. induction n as [| n IH]; [reflexivity |].
  rewrite !for_range_S, IH by (intros; apply H; lia).
  apply H. lia.
Qed.

(** An index loop that reads each element once is a fold over the array. *)
Lemma for_range_get {A} (g : A -> num -> A) (l : list num) (init : A) :
  for_range (length l) (fun i acc => g acc (get l i)) init = fold_left g l init.
Proof.
  induction l as [| x l IH] using rev_ind; [reflexivity |].
  rewrite length_app, Nat.add_1_r, for_range_S, fold_left_app. cbn [fold_left].
  rewrite <- IH. unfold get. rewrite nth_middle. f_equal.
  apply for_range_ext.
  intros i acc Hi. rewrite app_nth1 by exact Hi. reflexivity.
Qed.

Definition Qsum (l : list Q) : Q := fold_right Qplus 0 l.

(** The mean of the absolute values of the samples. *)
Definition mean_abs (samples : list Q) : Q :=
  Qsum (map Qabs samples) / inject_Z (Z.of_nat (length samples)).

Lemma fold_abs_finite (samples : list Q) (a : Q) :
  fold_left (fun acc v => add acc (abs v)) (map Fin samples) (Fin a)
  = Fin (fold_left (fun acc q => acc + Qabs q) samples a).
Proof.
  revert a. induction samples as [| q rest IH]; intros a; [reflexivity |].
  cbn [map fold_left]. apply IH.
Qed.

Lemma fold_Qsum (samples : list Q) (a : Q) :
  fold_left (fun acc q => acc + Qabs q) samples a == a + Qsum (map Qabs samples).
Proof.
  revert a. induction samples as [| q rest IH]; intros a.
  - unfold Qsum. cbn [map fold_right fold_left]. ring.
  - cbn [map fold_left]. rewrite IH.
    unfold Qsum. cbn [map fold_right]. ring.
Qed.

Lemma Qsum_abs_nonneg (samples : list Q) : 0 <= Qsum (map Qabs samples).
Proof.
  induction samples as [| q rest IH]; [apply Qle_refl |].
  unfold Qsum in *. cbn [map fold_right].
  pose proof (Qabs_nonneg q). lra.
Qed.


Lemma round_half_up_nonneg (q : Q) : 0 <= q -> (0 <= round_half_up q)%Z.
Proof.
  intros Hq. unfold round_half_up.
  change 0%Z with (Qfloor 0). apply Qfloor_resp_le. lra.
Qed.

Lemma sum_abs_fold (values : list num) :
  sum_abs values = fold_left (fun acc v => add acc (abs v)) values zero.
Proof. exact (for_range_get (fun acc v => add acc (abs v)) values zero). Qed.

(** The volume expression of lines 105-110 on finite samples, in the
    arithmetic of [num]. *)
Lemma volume_finite (samples : list Q) :
  samples <> [] ->
  round (mul (div (sum_abs (map Fin samples)) (of_nat (length (map Fin samples))))
             (of_Z 1000))
  = of_Z (round_half_up (mean_abs samples * 1000)).
Proof.
  intros Hne.
  assert (Hlen : (0 < length samples)%nat) by (destruct samples; [congruence | cbn; lia]).
  rewrite sum_abs_fold.
  change zero with (Fin 0). rewrite fold_abs_finite, length_map.
  unfold div, of_nat, of_Z. rewrite Qeq_bool_of_pos by exact Hlen.
  cbn [mul round]. unfold of_Z. do 2 f_equal.
  unfold round_half_up. apply Qfloor_comp.
  unfold mean_abs. rewrite fold_Qsum.
  change (inject_Z 1000) with 1000. field.
  pose proof (inject_nat_pos _ Hlen). lra.
Qed.









(** *** Lines 104-110 on binary64 values *)

Module Binary64.

(** Binary64 values and their operations, rounding to nearest, ties to
    even. *)
Definition prec : Z := 53.
Definition emax : Z := 1024.
Definition float : Type := SpecFloat.spec_float.
Definition add : float -> float -> float := SpecFloat.SFadd prec emax.
Definition mul : float -> float -> float := SpecFloat.SFmul prec emax.
Definition div : float -> float -> float := SpecFloat.SFdiv prec emax.
Definition abs : float -> float := SpecFloat.SFabs.

(** The number a binary64 value stands for. *)
Definition exact (x : float) : num :=
  match x with
  | SpecFloat.S754_zero _ => Fin 0
  | SpecFloat.S754_infinity false => PInf
  | SpecFloat.S754_infinity true => NInf
  | SpecFloat.S754_nan => NaN
  | SpecFloat.S754_finite sign m e =>
      let n := if sign then Z.neg m else Z.pos m in
      match e with
      | Z0 => Fin (inject_Z n)
      | Zpos p => Fin (inject_Z (n * Z.pow_pos 2 p))
      | Zneg p => Fin (Qmake n (Pos.pow 2 p))
      end
  end.


(** The binary64 nearest to [m * 2^e]: that number itself when
    [|m| < 2^53] and the exponent is in range. *)
Definition sample (m e : Z) : float :=
  SpecFloat.binary_normalize prec emax m e false.

Definition of_length (n : nat) : float := sample (Z.of_nat n) 0.

(** The volume of lines 105-110 with the sum, the quotient and the
    product rounded to binary64, as the program computes them;
    [Math.round] then returns the integer nearest to the product, ties
    upwards. *)
Definition volume (values : list float) : num :=
  let sum :=
    for_range (length values)
      (fun i sum => add sum (abs (nth i values SpecFloat.S754_nan)))
      (SpecFloat.S754_zero false) in
  let average := div sum (of_length (length values)) in
  round (exact (mul average (sample 1000 0))).



End Binary64.




(** The meter of lines 65-68 is full for every volume a cycle can publish
    from finite samples. *)
Lemma volumePercentage_full (s : state) (z : Z) :
  volume s = of_Z z -> (0 <= z)%Z -> volumePercentage s = of_Z 100.
Proof.
  intros Hv Hz. unfold volumePercentage. rewrite Hv.
  unfold add, of_Z, min. cbn [gt].
  assert (E : Qlt_bool (inject_Z z + inject_Z 100) (inject_Z 100) = false).
  { apply Qlt_bool_false. assert (0 <= inject_Z z) by (unfold Qle; cbn; lia). lra. }
  rewrite E. reflexivity.
Qed.

(** ** Further properties of the session *)

(** No exception leaves [start] when the release calls of [stop]
    return: the body's last call catches what [getValue()] throws and the
    handler only writes. *)
Lemma start_returns (acq : acquisition) (p : poll_result) (s : state) :
  start acq p s = (Returned tt, exec (start acq p) s).
Proof.
  unfold exec. destruct (isRecording s) eqn:Hr.
  - rewrite start_recording by exact Hr. reflexivity.
  - destruct acq;
      try (rewrite start_failed by (auto; discriminate); reflexivity).
    rewrite start_acquired by exact Hr. apply analyzeWithTone_returns.
Qed.

(** X1: on every path that does not reach [stop()], no exception leaves a
    handler: [start()] returns normally when a constructor or [connect()]
    throws or [mic.open()] rejects, and [start()] and the animation-frame
    callback return normally when [getValue()] returns. *)
Theorem failures_before_stop_are_caught :
  (forall acq p s, acq <> Acquired -> result (start acq p) s = Returned tt) /\
  (forall values s,
      result (start Acquired (GetValueReturns values)) s = Returned tt) /\
  (forall values s,
      result (fire_animation_frame (GetValueReturns values)) s = Returned tt).
Proof.
  split; [| split].
  - intros acq p s _. unfold result. rewrite start_returns. reflexivity.
  - intros values s. unfold result. rewrite start_returns. reflexivity.
  - intros values s. unfold result, fire_animation_frame. rewrite bind_read.
    destruct (scheduled s) as [| id rest]; [reflexivity |].
    rewrite bind_write, analyzeWithTone_returns. reflexivity.
Qed.

Lemma failures_before_stop_are_caught_witness :
  result (start ConnectThrows GetValueThrows) initial = Returned tt /\
  result (start OpenRejects GetValueThrows) (run short_session initial)
  = Returned tt.
Proof.
  split; apply (proj1 failures_before_stop_are_caught); discriminate.
Defined.

(** What the handles, the flag, the message and the request queue have in
    common in every state the component reaches. *)
Definition coherent (s : state) : Prop :=
  (1 <= fresh s)%nat /\
  (error s = EmptyString \/ error s = microphone_message) /\
  if isRecording s
  then error s = EmptyString /\
       (exists m, mic s = Some m /\ In (Mic m) (live s)) /\
       (exists a, analyser s = Some a /\ In (Analyser a) (live s)) /\
       exists id, animationFrameId s = Some (S id) /\ scheduled s = [S id]
  else animationFrameId s = None /\ scheduled s = [].

(** A session whose callback has just been taken off the queue (or that
    has just been opened): the state in which [analyzeWithTone] runs. *)
Definition mid_cycle (s : state) : Prop :=
  (1 <= fresh s)%nat /\
  isRecording s = true /\ error s = EmptyString /\
  (exists m, mic s = Some m /\ In (Mic m) (live s)) /\
  (exists a, analyser s = Some a /\ In (Analyser a) (live s)) /\
  scheduled s = [] /\
  (animationFrameId s = None \/ exists id, animationFrameId s = Some (S id)).

Lemma coherent_cycle (p : poll_result) (s : state) :
  mid_cycle s -> coherent (exec (analyzeWithTone p) s).
Proof.
  intros (Hf & Hr & He & Hm & (a & Ha & Hla) & Hq & Hid). unfold exec.
  assert (Hnext : coherent (rescheduled s)).
  { unfold coherent, rescheduled. cbn. rewrite Hr, He, Hq.
    repeat split; eauto; try lia.
    destruct (fresh s) as [| n] eqn:E; [lia |]. exists n. auto. }
  destruct p as [| [[| x xs] |]].
  - rewrite (cycle_throws s a Ha Hr), stop_run.
    unfold coherent. cbn. rewrite He, Hq.
    repeat split; eauto.
    + destruct Hid as [-> | [id ->]]; reflexivity.
    + destruct Hid as [-> | [id ->]]; reflexivity.
  - rewrite (cycle_no_frame s a Ha Hr) by auto. exact Hnext.
  - rewrite (cycle_frame s a Ha Hr) by discriminate.
    unfold coherent, rescheduled, published. cbn -[round mul div sum_abs find_peak bars_written].
    rewrite Hr, He, Hq. repeat split; eauto; try lia.
    destruct (fresh s) as [| n] eqn:E; [lia |]. exists n. auto.
  - rewrite (cycle_no_frame s a Ha Hr) by auto. exact Hnext.
Qed.

Lemma coherent_stop (s : state) : coherent s -> coherent (exec stop s).
Proof.
  intros (Hf & He & Hrec). unfold exec. rewrite stop_run.
  unfold coherent. cbn. split; [exact Hf |]. split; [exact He |].
  destruct (isRecording s).
  - destruct Hrec as (_ & _ & _ & id & -> & ->).
    cbn. rewrite Nat.eqb_refl. auto.
  - destruct Hrec as (-> & ->). auto.
Qed.

Lemma coherent_step (e : event) (s : state) :
  coherent s -> coherent (exec (handle e) s).
Proof.
  intros Hs. destruct e as [acq p | | p |]; cbn [handle];
    try (apply coherent_stop, Hs).
  - destruct (isRecording s) eqn:Hr.
    + unfold exec. rewrite start_recording by exact Hr. exact Hs.
    + destruct Hs as (Hf & He & Hrec). rewrite Hr in Hrec.
      destruct Hrec as (Hid & Hq).
      assert (Hfail : acq <> Acquired -> coherent (exec (start acq p) s)).
      { intros Hacq. unfold exec. rewrite start_failed by auto.
        unfold coherent. cbn. split; [destruct acq; cbn; lia |].
        split; [right; reflexivity |]. split; assumption. }
      destruct acq; try (apply Hfail; discriminate).
      unfold exec. rewrite start_acquired by exact Hr.
      apply (coherent_cycle p (acquired s)).
      unfold mid_cycle, acquired. cbn. repeat split; eauto 6; lia.
  - unfold fire_animation_frame, exec. rewrite bind_read.
    destruct (scheduled s) as [| id rest] eqn:Hq; [exact Hs |].
    rewrite bind_write.
    apply (coherent_cycle p (with_scheduled rest s)).
    destruct Hs as (Hf & He & Hrec).
    destruct (isRecording s) eqn:Hr.
    + destruct Hrec as (He' & Hm & Ha & id' & Hid & Hq').
      rewrite Hq in Hq'. injection Hq' as -> ->.
      unfold mid_cycle. cbn. repeat split; eauto.
    + destruct Hrec as (_ & Hq'). congruence.
Qed.

Lemma reachable_coherent (s : state) : reachable s -> coherent s.
Proof.
  induction 1 as [| s e Hs IH].
  - unfold coherent. cbn. auto.
  - apply coherent_step, IH.
Qed.

Lemma reachable_run (events : list event) (s : state) :
  reachable s -> reachable (run events s).
Proof.
  revert s. induction events as [| e rest IH]; intros s Hs; [exact Hs |].
  cbn [run fold_left]. apply IH. apply reachable_step, Hs.
Qed.

Lemma short_session_reachable : reachable (run short_session initial).
Proof. apply reachable_run, reachable_initial. Qed.




(** X6: a [start()] that opens the microphone, with a first [getValue()]
    that returns, leaves the component recording with the message cleared,
    two new objects behind the handles, one request pending, and nothing
    logged. *)
Theorem start_opens_session (s : state) (values : option (list num)) :
  isRecording s = false ->
  let s' := exec (start Acquired (GetValueReturns values)) s in
  isRecording s' = true /\
  error s' = EmptyString /\
  analyser s' = Some (fresh s) /\
  mic s' = Some (S (fresh s)) /\
  live s' = Mic (S (fresh s)) :: Analyser (fresh s) :: live s /\
  animationFrameId s' = Some (S (S (fresh s))) /\
  scheduled s' = S (S (fresh s)) :: scheduled s /\
  console s' = console s.
Proof.
  intros Hr. unfold exec. rewrite start_acquired by exact Hr.
  assert (Ha : analyser (acquired s) = Some (fresh s)) by reflexivity.
  assert (Hr' : isRecording (acquired s) = true) by reflexivity.
  destruct values as [[| x xs] |].
  - rewrite (cycle_no_frame _ _ Ha Hr') by auto. cbn. auto 10.
  - rewrite (cycle_frame _ _ Ha Hr') by discriminate.
    cbn -[round mul div sum_abs find_peak bars_written]. auto 10.
  - rewrite (cycle_no_frame _ _ Ha Hr') by auto. cbn. auto 10.
Qed.

Lemma start_opens_session_witness :
  isRecording (exec (start Acquired (GetValueReturns None)) initial) = true.
Proof.
  exact (proj1 (start_opens_session initial None eq_refl)).
Defined.

Lemma start_acquired_recording (s : state) (values : option (list num)) :
  isRecording s = false ->
  isRecording (exec (start Acquired (GetValueReturns values)) s) = true.
Proof.
  intros Hr. unfold exec. rewrite start_acquired by exact Hr.
  assert (Ha : analyser (acquired s) = Some (fresh s)) by reflexivity.
  assert (Hr' : isRecording (acquired s) = true) by reflexivity.
  destruct values as [[| x xs] |].
  - rewrite (cycle_no_frame _ _ Ha Hr') by auto. reflexivity.
  - rewrite (cycle_frame _ _ Ha Hr') by discriminate. reflexivity.
  - rewrite (cycle_no_frame _ _ Ha Hr') by auto. reflexivity.
Qed.

(** X7: [start()] while already recording changes nothing, whatever the
    platform would have done: after a [start()] that opened a session, a
    second [start()] acquires nothing and leaves every field as it was. *)
Theorem start_twice (s : state) (values : option (list num))
        (acq : acquisition) (p : poll_result) :
  isRecording s = false ->
  let s' := exec (start Acquired (GetValueReturns values)) s in
  exec (start acq p) s' = s'.
Proof.
  intros Hr. cbv zeta.
  pose proof (start_acquired_recording s values Hr) as Hr'.
  unfold exec at 1. rewrite start_recording by exact Hr'. reflexivity.
Qed.

Lemma start_twice_witness :
  let s' := exec (start Acquired (GetValueReturns None)) initial in
  exec (start OpenRejects GetValueThrows) s' = s'.
Proof.
  exact (start_twice initial None OpenRejects GetValueThrows eq_refl).
Defined.

(** X8: when the first [getValue()] of a freshly opened session throws
    (and the release calls of [stop()] return), [start()] ends with the
    component stopped: both new objects disposed and nothing else
    acquired, handles null, no request added, the failure logged and the
    error field empty. *)
Theorem start_with_failing_first_cycle (s : state) :
  isRecording s = false ->
  let s' := exec (start Acquired GetValueThrows) s in
  isRecording s' = false /\
  mic s' = None /\ analyser s' = None /\
  ~ In (Mic (S (fresh s))) (live s') /\
  ~ In (Analyser (fresh s)) (live s') /\
  (forall r, In r (live s') -> In r (live s)) /\
  (forall id, In id (scheduled s') -> In id (scheduled s)) /\
  console s' = "Analysis error:" :: console s /\
  error s' = EmptyString.
Proof.
  intros Hr.
  unfold exec. rewrite start_acquired by exact Hr.
  assert (Ha : analyser (acquired s) = Some (fresh s)) by reflexivity.
  assert (Hr' : isRecording (acquired s) = true) by reflexivity.
  rewrite (cycle_throws _ _ Ha Hr'), stop_run.
  cbn [snd isRecording mic analyser live scheduled console error acquired
       with_console animationFrameId].
  split; [reflexivity |]. split; [reflexivity |]. split; [reflexivity |].
  split; [| split; [| split; [| split]]]; [| | | | auto].
  - intros Hin. apply in_filter_weaken in Hin.
    revert Hin. apply not_in_after_dispose.
  - apply not_in_after_dispose.
  - intros r Hin. rewrite !filter_In in Hin.
    destruct Hin as [[[<- | [<- | Hin]] H1] H2]; [| | exact Hin].
    + rewrite resource_eqb_refl in H1. discriminate.
    + rewrite resource_eqb_refl in H2. discriminate.
  - intros id Hin. destruct (animationFrameId s) as [[| n] |];
      [exact Hin | apply in_filter_weaken in Hin; exact Hin | exact Hin].
Qed.

Lemma start_with_failing_first_cycle_witness :
  let s := exec (start OpenRejects GetValueThrows) initial in
  let s' := exec (start Acquired GetValueThrows) s in
  live s = [Mic 2; Analyser 1] /\
  isRecording s' = false /\ mic s' = None /\ analyser s' = None /\
  ~ In (Mic 4) (live s') /\ ~ In (Analyser 3) (live s') /\
  console s' = ["Analysis error:"; "Error with Tone.js:"] /\
  error s' = EmptyString.
Proof.
  destruct (start_with_failing_first_cycle
              (exec (start OpenRejects GetValueThrows) initial) eq_refl)
    as (Hflag & Hm & Ha & Hlm & Hla & _ & _ & Hc & Herror).
  split; [reflexivity |].
  split; [exact Hflag |]. split; [exact Hm |]. split; [exact Ha |].
  split; [exact Hlm |]. split; [exact Hla |].
  split; [exact Hc | exact Herror].
Defined.

(** X9: whichever platform call fails, a [start()] that cannot open the
    microphone publishes the fixed message, stays not recording, logs one
    line, requests no cycle and leaves the three metrics untouched; when it
    is the [Analyser] constructor that throws, nothing was constructed and
    the handles are as before. *)
Theorem start_failure_report (acq : acquisition) (p : poll_result) (s : state) :
  isRecording s = false ->
  acq <> Acquired ->
  let s' := exec (start acq p) s in
  error s' = microphone_message /\ error s' <> EmptyString /\
  isRecording s' = false /\
  frequency s' = frequency s /\ volume s' = volume s /\
  frequencyBars s' = frequencyBars s /\
  animationFrameId s' = animationFrameId s /\ scheduled s' = scheduled s /\
  console s' = "Error with Tone.js:" :: console s /\
  (acq = AnalyserCtorThrows ->
   live s' = live s /\ mic s' = mic s /\ analyser s' = analyser s).
Proof.
  intros Hr Hacq. unfold exec. rewrite start_failed by assumption.
  cbn [snd error isRecording frequency volume frequencyBars animationFrameId
       scheduled console live mic analyser].
  repeat split; try discriminate.
  all: subst acq; reflexivity.
Qed.

Lemma start_failure_report_witness :
  let s' := exec (start UserMediaCtorThrows GetValueThrows) initial in
  error s' = microphone_message /\ isRecording s' = false.
Proof.
  destruct (start_failure_report UserMediaCtorThrows GetValueThrows initial
              eq_refl ltac:(discriminate))
    as (Herror & _ & Hflag & _).
  exact (conj Herror Hflag).
Defined.


(** X11: a cycle in which [getValue()] returns, with or without samples,
    changes only the three metrics and the pending request: the flag, the
    error field, both handles, the live objects and the console are as
    before, and exactly one new request is queued. *)
Theorem cycle_touches_only_metrics (s : state) (h : nat)
        (values : option (list num)) :
  analyser s = Some h ->
  isRecording s = true ->
  let s' := exec (analyzeWithTone (GetValueReturns values)) s in
  isRecording s' = true /\ error s' = error s /\
  mic s' = mic s /\ analyser s' = analyser s /\
  live s' = live s /\ console s' = console s /\
  animationFrameId s' = Some (fresh s) /\
  scheduled s' = fresh s :: scheduled s /\
  fresh s' = S (fresh s).
Proof.
  intros Ha Hr. unfold exec.
  destruct values as [[| x xs] |].
  - rewrite (cycle_no_frame s h Ha Hr) by auto. cbn. rewrite Hr. auto 10.
  - rewrite (cycle_frame s h Ha Hr) by discriminate.
    cbn -[round mul div sum_abs find_peak bars_written]. rewrite Hr. auto 10.
  - rewrite (cycle_no_frame s h Ha Hr) by auto. cbn. rewrite Hr. auto 10.
Qed.

Lemma cycle_touches_only_metrics_witness :
  let s := run short_session initial in
  live (exec (analyzeWithTone (GetValueReturns (Some [of_Z 4]))) s) = live s.
Proof.
  destruct (cycle_touches_only_metrics (run short_session initial) 1
              (Some [of_Z 4]) eq_refl eq_refl)
    as (_ & _ & _ & _ & Hlive & _).
  exact Hlive.
Defined.

(** X12: the band array has exactly 32 entries in every state the
    component can reach, and still has after a cycle on any frame, of any
    length and with any samples, or after a failing [getValue()]. *)
Theorem always_32_bands (s : state) (p : poll_result) :
  reachable s ->
  length (frequencyBars s) = 32%nat /\
  length (frequencyBars (exec (analyzeWithTone p) s)) = 32%nat.
Proof.
  intros Hs. pose proof (reachable_bars_length s Hs) as H32.
  split; [exact H32 |]. unfold exec.
  destruct (analyser s) as [h |] eqn:Ha; [| rewrite cycle_guard; auto].
  destruct (isRecording s) eqn:Hr; [| rewrite cycle_guard; auto].
  destruct p as [| [[| x xs] |]].
  - rewrite (cycle_throws s h Ha Hr), stop_run. reflexivity.
  - rewrite (cycle_no_frame s h Ha Hr); auto.
  - rewrite (cycle_frame s h Ha Hr) by discriminate.
    cbn [snd]. rewrite published_bars. apply bars_written_length, H32.
  - rewrite (cycle_no_frame s h Ha Hr); auto.
Qed.

Lemma always_32_bands_witness :
  length (frequencyBars
            (exec (analyzeWithTone (GetValueReturns (Some [NaN; PInf; of_Z 2])))
                  (run short_session initial))) = 32%nat.
Proof.
  exact (proj2 (always_32_bands (run short_session initial)
                  (GetValueReturns (Some [NaN; PInf; of_Z 2]))
                  short_session_reachable)).
Defined.

(** ** Further properties of the reduction *)

Lemma fold_left_ext_in {A B} (f g : A -> B -> A) (l : list B) (a : A) :
  (forall acc x, In x l -> f acc x = g acc x) ->
  fold_left f l a = fold_left g l a.
Proof.
  revert a. induction l as [| x l IH]; intros a H; [reflexivity |].
  cbn [fold_left]. rewrite (H a x) by (left; reflexivity).
  apply IH. intros acc y Hy. apply H. right. exact Hy.
Qed.

Lemma get_firstn (values : list num) (n i : nat) :
  (i < n)%nat -> get (firstn n values) i = get values i.
Proof.
  intros Hi. unfold get. rewrite nth_firstn.
  destruct (Nat.ltb_spec i n); [reflexivity | lia].
Qed.

(** The samples the 32 bands read: the first [32 * floor(length / 32)]. *)
Definition banded_prefix (values : list num) : list num :=
  firstn (32 * (length values / 32)) values.

Lemma banded_prefix_length (values : list num) :
  length (banded_prefix values) = (32 * (length values / 32))%nat.
Proof.
  unfold banded_prefix. apply firstn_length_le.
  apply Nat.Div0.mul_div_le.
Qed.

Lemma banded_prefix_samplesPerBar (values : list num) :
  (length (banded_prefix values) / 32 = length values / 32)%nat.
Proof.
  rewrite banded_prefix_length, Nat.mul_comm. apply Nat.div_mul. discriminate.
Qed.

Lemma bar_value_prefix (values : list num) (i : nat) :
  (i < 32)%nat ->
  bar_value (banded_prefix values) (length values / 32) i
  = bar_value values (length values / 32) i.
Proof.
  intros Hi. unfold bar_value. do 3 f_equal.
  apply for_range_ext. intros j acc Hj.
  assert (Hidx : (i * (length values / 32) + j < 32 * (length values / 32))%nat) by nia.
  pose proof (Nat.Div0.mul_div_le (length values) 32) as Hle.
  rewrite banded_prefix_length.
  destruct (Nat.ltb_spec (i * (length values / 32) + j) (32 * (length values / 32)));
    [| lia].
  destruct (Nat.ltb_spec (i * (length values / 32) + j) (length values)); [| lia].
  unfold banded_prefix. rewrite get_firstn by exact Hidx. reflexivity.
Qed.

Lemma bars_written_prefix (values arr : list num) :
  bars_written (banded_prefix values) (seq 0 32) arr
  = bars_written values (seq 0 32) arr.
Proof.
  unfold bars_written. rewrite banded_prefix_samplesPerBar.
  apply fold_left_ext_in. intros acc i Hi. apply in_seq in Hi.
  rewrite bar_value_prefix by lia. reflexivity.
Qed.

(** X13: the bands ignore the remainder of the frame: a frame of at least
    32 samples and the same frame cut to [32 * floor(length / 32)] samples
    publish the same 32 bands. *)
Theorem tail_samples_ignored (s : state) (h : nat) (values : list num) :
  analyser s = Some h ->
  isRecording s = true ->
  (32 <= length values)%nat ->
  frequencyBars
    (exec (analyzeWithTone (GetValueReturns (Some (banded_prefix values)))) s)
  = frequencyBars (exec (analyzeWithTone (GetValueReturns (Some values))) s).
Proof.
  intros Ha Hr Hlen. unfold exec.
  assert (Hne : values <> []) by (destruct values; [cbn in Hlen; lia | discriminate]).
  assert (Hne' : banded_prefix values <> []).
  { intros E. pose proof (banded_prefix_length values) as HL. rewrite E in HL.
    change (length (@nil num)) with 0%nat in HL.
    assert (0 < length values / 32)%nat by (apply Nat.div_str_pos; lia).
    lia. }
  rewrite (cycle_frame s h Ha Hr _ Hne), (cycle_frame s h Ha Hr _ Hne').
  cbn [snd]. rewrite !published_bars. apply bars_written_prefix.
Qed.

Lemma tail_samples_ignored_witness :
  let values := repeat (of_Z 1) 32 ++ [of_Z 9; NaN; PInf] in
  frequencyBars
    (exec (analyzeWithTone (GetValueReturns (Some (banded_prefix values))))
          (run short_session initial))
  = frequencyBars
      (exec (analyzeWithTone (GetValueReturns (Some values)))
            (run short_session initial)).
Proof.
  apply (tail_samples_ignored (run short_session initial) 1);
    [reflexivity | reflexivity | vm_compute; lia].
Defined.

(** The sign of the samples. *)
Definition negated (a : num) : num :=
  match a with
  | NaN => NaN
  | PInf => NInf
  | NInf => PInf
  | Fin q => Fin (- q)
  end.

Lemma abs_negated (a : num) : abs (negated a) = abs a.
Proof.
  destruct a as [| | | [n d]]; try reflexivity.
  cbn. unfold Qabs, Qopp. cbn. rewrite Z.abs_opp. reflexivity.
Qed.

Lemma magnitude_negated (values : list num) (i : nat) :
  abs (get (map negated values) i) = abs (get values i).
Proof.
  unfold get. change NaN with (negated NaN) at 1.
  rewrite map_nth. apply abs_negated.
Qed.

Lemma published_negated (values : list num) (s : state) :
  published (map negated values) s = published values s.
Proof.
  unfold published.
  assert (Hsum : sum_abs (map negated values) = sum_abs values).
  { unfold sum_abs. rewrite length_map. apply for_range_ext.
    intros i acc _. rewrite magnitude_negated. reflexivity. }
  assert (Hpeak : find_peak (map negated values) = find_peak values).
  { unfold find_peak. rewrite length_map. apply for_range_ext.
    intros i [mi mv] _. rewrite magnitude_negated. reflexivity. }
  assert (Hbars : forall arr,
             bars_written (map negated values) (seq 0 32) arr
             = bars_written values (seq 0 32) arr).
  { intros arr. unfold bars_written. rewrite length_map.
    apply fold_left_ext_in. intros acc i _. f_equal.
    unfold bar_value. rewrite length_map. do 3 f_equal.
    apply for_range_ext. intros j sum _.
    rewrite magnitude_negated. reflexivity. }
  rewrite Hsum, Hpeak, Hbars, length_map. reflexivity.
Qed.

(** X14: only magnitudes matter: a frame and the same frame with every
    sample negated publish the same frequency, volume and bands. *)
Theorem sign_is_irrelevant (s : state) (h : nat) (values : list num) :
  analyser s = Some h ->
  isRecording s = true ->
  exec (analyzeWithTone (GetValueReturns (Some (map negated values)))) s
  = exec (analyzeWithTone (GetValueReturns (Some values))) s.
Proof.
  intros Ha Hr. unfold exec. destruct values as [| x xs]; [reflexivity |].
  rewrite (cycle_frame s h Ha Hr (x :: xs)) by discriminate.
  rewrite (cycle_frame s h Ha Hr (map negated (x :: xs))) by discriminate.
  rewrite published_negated. reflexivity.
Qed.

Lemma sign_is_irrelevant_witness :
  exec (analyzeWithTone
          (GetValueReturns (Some (map negated [of_Z (-80); NInf; of_Z 3]))))
       (run short_session initial)
  = exec (analyzeWithTone (GetValueReturns (Some [of_Z (-80); NInf; of_Z 3])))
         (run short_session initial).
Proof.
  exact (sign_is_irrelevant (run short_session initial) 1
           [of_Z (-80); NInf; of_Z 3] eq_refl eq_refl).
Defined.

(** X15: the Hz value of line 126 is, in integer arithmetic,
    [floor((44100 * index + length) / (2 * length))], and it never
    decreases when the peak index grows. *)
Theorem hz_mapping (i j len : nat) :
  (0 < len)%nat ->
  (i <= j)%nat ->
  round (div (mul (of_nat i) (div (of_Z 44100) (of_Z 2))) (of_nat len))
  = of_Z ((44100 * Z.of_nat i + Z.of_nat len) / (2 * Z.of_nat len)) /\
  ((44100 * Z.of_nat i + Z.of_nat len) / (2 * Z.of_nat len)
   <= (44100 * Z.of_nat j + Z.of_nat len) / (2 * Z.of_nat len))%Z.
Proof.
  intros Hlen Hij. split.
  - rewrite frequency_expression by exact Hlen.
    rewrite bin_to_hz_integer by exact Hlen. reflexivity.
  - apply Z.div_le_mono; lia.
Qed.

Lemma hz_mapping_witness :
  round (div (mul (of_nat 512) (div (of_Z 44100) (of_Z 2))) (of_nat 2048))
  = of_Z 5513.
Proof.
  rewrite (proj1 (hz_mapping 512 600 2048 ltac:(lia) ltac:(lia))).
  vm_compute. reflexivity.
Defined.

(** After the writes of [updateFrequencyBars], cell [k] holds the value
    computed for [k] if [k] was written and its old content otherwise. *)
Lemma nth_array_writes (f : nat -> num) (indices : list nat) :
  forall (arr : list num) (k : nat),
    (forall i, In i indices -> (i < length arr)%nat) ->
    nth k (fold_left (fun a i => array_set i (f i) a) indices arr) NaN
    = if existsb (Nat.eqb k) indices then f k else nth k arr NaN.
Proof.
  induction indices as [| i rest IH]; intros arr k Hin; [reflexivity |].
  cbn [fold_left existsb].
  assert (Hi : (i < length arr)%nat) by (apply Hin; left; reflexivity).
  rewrite IH by (intros j Hj; rewrite array_set_length by exact Hi;
                 apply Hin; right; exact Hj).
  rewrite array_set_nth by exact Hi.
  destruct (existsb (Nat.eqb k) rest) eqn:E.
  - rewrite orb_true_r. reflexivity.
  - rewrite orb_false_r. destruct (Nat.eqb_spec k i) as [-> | _]; reflexivity.
Qed.

Lemma bars_written_nth (values arr : list num) (k : nat) :
  length arr = 32%nat -> (k < 32)%nat ->
  nth k (bars_written values (seq 0 32) arr) NaN
  = bar_value values (length values / 32) k.
Proof.
  intros Hlen Hk. unfold bars_written.
  rewrite nth_array_writes
    by (intros i Hi; apply in_seq in Hi; rewrite Hlen; lia).
  assert (E : existsb (Nat.eqb k) (seq 0 32) = true).
  { apply existsb_exists. exists k. split; [apply in_seq; lia | apply Nat.eqb_refl]. }
  rewrite E. reflexivity.
Qed.

(** The samples of band [i]: [samplesPerBar] consecutive samples from
    index [i * samplesPerBar]. *)
Definition band_samples {A} (samples : list A) (i : nat) : list A :=
  firstn (length samples / 32) (skipn (i * (length samples / 32)) samples).

Lemma band_samples_length {A} (samples : list A) (i : nat) :
  (i < 32)%nat ->
  length (band_samples samples i) = (length samples / 32)%nat.
Proof.
  intros Hi. unfold band_samples.
  pose proof (Nat.Div0.mul_div_le (length samples) 32) as Hle.
  apply firstn_length_le. rewrite length_skipn. nia.
Qed.

Lemma band_samples_map {A B} (g : A -> B) (samples : list A) (i : nat) :
  band_samples (map g samples) i = map g (band_samples samples i).
Proof.
  unfold band_samples. rewrite length_map, skipn_map, firstn_map. reflexivity.
Qed.

(** The inner loop of lines 141-147 adds up the magnitudes of the band's
    samples. *)
Lemma bar_sum (values : list num) (i : nat) :
  (i < 32)%nat ->
  for_range (length values / 32)
    (fun j sum =>
       let index := (i * (length values / 32) + j)%nat in
       if Nat.ltb index (length values)
       then add sum (abs (get values index))
       else sum)
    zero
  = sum_abs (band_samples values i).
Proof.
  intros Hi. unfold sum_abs. rewrite band_samples_length by exact Hi.
  apply for_range_ext. intros j acc Hj. cbv zeta.
  pose proof (Nat.Div0.mul_div_le (length values) 32) as Hle.
  destruct (Nat.ltb_spec (i * (length values / 32) + j) (length values)); [| nia].
  unfold band_samples, get.
  rewrite nth_firstn. destruct (Nat.ltb_spec j (length values / 32)); [| lia].
  rewrite nth_skipn. reflexivity.
Qed.

Lemma sum_abs_finite (samples : list Q) :
  exists total,
    sum_abs (map Fin samples) = Fin total /\ total == Qsum (map Qabs samples).
Proof.
  exists (fold_left (fun acc q => acc + Qabs q) samples 0). split.
  - rewrite sum_abs_fold. change zero with (Fin 0). apply fold_abs_finite.
  - rewrite fold_Qsum. ring.
Qed.

(** The value of one band on finite samples, in the arithmetic of
    [num]. *)
Lemma bar_value_finite (samples : list Q) (i : nat) :
  (32 <= length samples)%nat -> (i < 32)%nat ->
  exists q,
    bar_value (map Fin samples) (length (map Fin samples) / 32) i = Fin q /\
    0 <= q <= 100 /\
    (mean_abs (band_samples samples i) * 500 < 100 ->
     q == mean_abs (band_samples samples i) * 500) /\
    (100 <= mean_abs (band_samples samples i) * 500 -> q == 100).
Proof.
  intros Hlen Hi.
  assert (Hspb : (0 < length samples / 32)%nat) by (apply Nat.div_str_pos; lia).
  unfold bar_value. rewrite bar_sum by exact Hi.
  rewrite band_samples_map, length_map.
  destruct (sum_abs_finite (band_samples samples i)) as (total & -> & Htotal).
  unfold div, of_nat, of_Z. rewrite Qeq_bool_of_pos by exact Hspb.
  cbn [mul min gt].
  assert (Hmean : total / inject_Z (Z.of_nat (length samples / 32)) * inject_Z 500
                  == mean_abs (band_samples samples i) * 500).
  { unfold mean_abs. rewrite band_samples_length by exact Hi.
    rewrite Htotal. reflexivity. }
  assert (Hnonneg : 0 <= mean_abs (band_samples samples i)).
  { unfold mean_abs. apply Qle_shift_div_l.
    - rewrite band_samples_length by exact Hi. apply inject_nat_pos, Hspb.
    - pose proof (Qsum_abs_nonneg (band_samples samples i)). lra. }
  destruct (Qlt_bool _ (inject_Z 100)) eqn:E.
  - apply Qlt_bool_iff in E. change (inject_Z 100) with 100 in E.
    eexists. split; [reflexivity |]. rewrite Hmean in *.
    repeat split; intros; try lra; try reflexivity.
  - apply Qlt_bool_false in E. change (inject_Z 100) with 100 in E.
    exists 100. split; [reflexivity |]. rewrite Hmean in E.
    repeat split; intros; try lra; try discriminate; try reflexivity.
Qed.

Lemma bar_value_of_band (values : list num) (i : nat) :
  (i < 32)%nat ->
  bar_value values (length values / 32) i
  = min (of_Z 100)
        (mul (div (sum_abs (band_samples values i)) (of_nat (length values / 32)))
             (of_Z 500)).
Proof.
  intros Hi. unfold bar_value. rewrite bar_sum by exact Hi. reflexivity.
Qed.

(** X16: band [i] is computed from its own [floor(length / 32)]
    consecutive samples only: two frames of the same length, at least 32,
    that agree on the samples of band [i] publish the same band [i],
    whatever the other samples are. *)
Theorem band_reads_its_samples (s : state) (h : nat)
        (values values' : list num) (i : nat) :
  length (frequencyBars s) = 32%nat ->
  analyser s = Some h ->
  isRecording s = true ->
  (32 <= length values)%nat ->
  length values' = length values ->
  (i < 32)%nat ->
  band_samples values' i = band_samples values i ->
  nth i (frequencyBars
           (exec (analyzeWithTone (GetValueReturns (Some values'))) s)) NaN
  = nth i (frequencyBars
             (exec (analyzeWithTone (GetValueReturns (Some values))) s)) NaN.
Proof.
  intros Hs Ha Hr Hlen Hlen' Hi Hband. unfold exec.
  rewrite (cycle_frame s h Ha Hr values)
    by (destruct values; [cbn in Hlen; lia | discriminate]).
  rewrite (cycle_frame s h Ha Hr values')
    by (destruct values'; [cbn in Hlen'; lia | discriminate]).
  cbn [snd]. rewrite !published_bars.
  rewrite !bars_written_nth by auto.
  rewrite !bar_value_of_band by exact Hi.
  rewrite Hband, Hlen'. reflexivity.
Qed.

Lemma band_reads_its_samples_witness :
  let values := repeat (of_Z 1) 32 ++ repeat (of_Z 2) 32 in
  let values' := repeat NaN 38 ++ [of_Z 2; of_Z 2] ++ repeat PInf 24 in
  let s := run short_session initial in
  nth 19 (frequencyBars
            (exec (analyzeWithTone (GetValueReturns (Some values'))) s)) NaN
  = nth 19 (frequencyBars
              (exec (analyzeWithTone (GetValueReturns (Some values))) s)) NaN
  /\ nth 19 (frequencyBars
               (exec (analyzeWithTone (GetValueReturns (Some values))) s)) NaN
     = of_Z 100
  /\ nth 19 (frequencyBars s) NaN <> of_Z 100.
Proof.
  cbv zeta. split; [| split].
  - apply (band_reads_its_samples (run short_session initial) 1).
    + reflexivity.
    + reflexivity.
    + reflexivity.
    + vm_compute. lia.
    + reflexivity.
    + lia.
    + vm_compute. reflexivity.
  - vm_compute. reflexivity.
  - intros H. vm_compute in H. discriminate.
Defined.

Lemma Forall_band_samples {A} (P : A -> Prop) (samples : list A) (i : nat) :
  Forall P samples -> Forall P (band_samples samples i).
Proof.
  intros H. rewrite Forall_forall in *. intros x Hx. apply H.
  unfold band_samples in Hx.
  rewrite <- (firstn_skipn (i * (length samples / 32)) samples).
  apply in_or_app. right.
  rewrite <- (firstn_skipn (length samples / 32)
                (skipn (i * (length samples / 32)) samples)).
  apply in_or_app. left. exact Hx.
Qed.

Lemma Qsum_abs_zero (samples : list Q) :
  Forall (fun q => q == 0) samples -> Qsum (map Qabs samples) == 0.
Proof.
  induction 1 as [| q rest Hq _ IH]; [reflexivity |].
  unfold Qsum in *. cbn [map fold_right]. rewrite IH, Hq. reflexivity.
Qed.

Lemma mean_abs_zero (samples : list Q) :
  Forall (fun q => q == 0) samples -> mean_abs samples == 0.
Proof.
  intros H. unfold mean_abs. rewrite (Qsum_abs_zero samples H).
  unfold Qdiv. ring.
Qed.

Lemma silent_no_positive (samples : list Q) (j : nat) :
  Forall (fun q => q == 0) samples ->
  (j < length (map Fin samples))%nat ->
  gt (magnitude (map Fin samples) j) zero = false.
Proof.
  intros H Hj. unfold magnitude, get.
  rewrite (nth_indep _ NaN (Fin 0)) by exact Hj.
  rewrite (map_nth Fin samples 0 j). cbn [abs gt zero of_Z].
  apply Qlt_bool_false.
  rewrite length_map in Hj. rewrite Forall_forall in H.
  rewrite (H (nth j samples 0)) by (apply nth_In; exact Hj).
  discriminate.
Qed.

(** X17: a frame of at least 32 samples that are all zero publishes
    volume 0 (not the initial -100), frequency 0 and 32 bands equal to
    0. *)
Theorem silent_frame (s : state) (h : nat) (samples : list Q) :
  reachable s ->
  analyser s = Some h ->
  isRecording s = true ->
  (32 <= length samples)%nat ->
  Forall (fun q => q == 0) samples ->
  let s' := exec (analyzeWithTone (GetValueReturns (Some (map Fin samples)))) s in
  volume s' = of_Z 0 /\
  frequency s' = of_Z 0 /\
  forall i, (i < 32)%nat ->
            exists q, nth i (frequencyBars s') NaN = Fin q /\ q == 0.
Proof.
  intros Hs Ha Hr Hlen Hzero.
  assert (Hne : samples <> []) by (destruct samples; [cbn in Hlen; lia | discriminate]).
  assert (Hne' : map Fin samples <> []) by (destruct samples; [congruence | discriminate]).
  unfold exec. rewrite (cycle_frame s h Ha Hr _ Hne'). cbn [snd].
  rewrite published_volume, published_frequency, published_bars.
  split; [| split].
  - rewrite volume_finite by exact Hne. f_equal.
    unfold round_half_up. transitivity (Qfloor (1 # 2)); [| reflexivity].
    apply Qfloor_comp. rewrite (mean_abs_zero samples Hzero). ring.
  - rewrite find_peak_all_zero
      by (intros j Hj; apply silent_no_positive; assumption).
    rewrite frequency_expression by (rewrite length_map; lia).
    rewrite bin_to_hz_integer by (rewrite length_map; lia).
    rewrite Z.div_small by (rewrite length_map; lia). reflexivity.
  - intros i Hi.
    rewrite bars_written_nth by (auto using reachable_bars_length).
    destruct (bar_value_finite samples i Hlen Hi) as (q & Hq & _ & Hlow & _).
    exists q. split; [exact Hq |].
    pose proof (mean_abs_zero _ (Forall_band_samples _ samples i Hzero)) as Hm.
    rewrite Hlow; rewrite Hm; [ring | reflexivity].
Qed.

Lemma silent_frame_witness :
  let s' := exec (analyzeWithTone
                    (GetValueReturns (Some (map Fin (repeat 0 40)))))
                 (run short_session initial) in
  volume s' = of_Z 0 /\ frequency s' = of_Z 0.
Proof.
  destruct (silent_frame (run short_session initial) 1 (repeat 0 40)
              short_session_reachable eq_refl eq_refl
              ltac:(vm_compute; lia)
              ltac:(apply Forall_forall; intros q Hq;
                    apply repeat_spec in Hq; subst; reflexivity))
    as (Hv & Hf & _).
  exact (conj Hv Hf).
Defined.

Lemma volumePercentage_range (s : state) :
  (is_nan (volume s) = false -> between 0 100 (volumePercentage s)) /\
  (is_nan (volume s) = true -> volumePercentage s = NaN).
Proof.
  unfold volumePercentage. destruct (volume s) as [| | | q]; cbn [is_nan].
  - split; [discriminate | reflexivity].
  - split; [| discriminate]. intros _. cbn. split; discriminate.
  - split; [| discriminate]. intros _. cbn. split; discriminate.
  - split; [| discriminate]. intros _.
    unfold add, of_Z, min. cbn [gt].
    destruct (Qlt_bool (q + inject_Z 100) (inject_Z 100)) eqn:E.
    + unfold max. cbn [gt].
      destruct (Qlt_bool (inject_Z 0) (q + inject_Z 100)) eqn:E'.
      * apply Qlt_bool_iff in E, E'. cbn [between].
        change (inject_Z 100) with 100 in *. change (inject_Z 0) with 0 in *.
        lra.
      * cbn. split; discriminate.
    + cbn. split; discriminate.
Qed.

(** X18: the meter of lines 65-68 is clamped: whenever the volume is a
    number, finite or not, the percentage is a finite value in [0, 100]
    (and it is [NaN] when the volume is). *)
Theorem meter_clamped (s : state) :
  (is_nan (volume s) = false -> between 0 100 (volumePercentage s)) /\
  (is_nan (volume s) = true -> volumePercentage s = NaN).
Proof. exact (volumePercentage_range s). Qed.

Lemma round_nonneg (a : num) : nonneg a -> nonneg (round a).
Proof.
  destruct a; cbn [round nonneg]; try tauto.
  intros H. pose proof (round_half_up_nonneg q H) as Hz.
  unfold of_Z, nonneg, Qle. cbn [inject_Z Qnum Qden]. lia.
Qed.

Lemma volume_nonneg (values : list num) :
  values <> [] -> no_nan values ->
  nonneg (round (mul (div (sum_abs values) (of_nat (length values))) (of_Z 1000))).
Proof.
  intros Hne Hall.
  apply round_nonneg, mul_nonneg_literal; [lia |].
  apply div_nonneg; [destruct values; [congruence | cbn; lia] |].
  unfold sum_abs. apply for_range_invariant.
  - apply Qle_refl.
  - intros i acc Hi Hacc. apply add_nonneg; [exact Hacc |].
    apply abs_nonneg, get_no_nan; assumption.
Qed.

Lemma meter_of_nonneg (s : state) :
  nonneg (volume s) -> volumePercentage s = of_Z 100.
Proof.
  unfold volumePercentage. destruct (volume s) as [| | | q]; cbn [nonneg];
    try tauto; try (intros _; reflexivity).
  intros Hq. unfold add, of_Z, min. cbn [gt].
  assert (E : Qlt_bool (q + inject_Z 100) (inject_Z 100) = false).
  { apply Qlt_bool_false. change (inject_Z 100) with 100. lra. }
  rewrite E. reflexivity.
Qed.

(** X19: after a cycle on any non-empty frame without [NaN] samples the
    meter is full: the published volume is at least 0, so
    [volume + 100] is at least 100 and the percentage is exactly 100. *)
Theorem meter_full_after_reading (s : state) (h : nat) (values : list num) :
  analyser s = Some h ->
  isRecording s = true ->
  values <> [] ->
  no_nan values ->
  volumePercentage (exec (analyzeWithTone (GetValueReturns (Some values))) s)
  = of_Z 100.
Proof.
  intros Ha Hr Hne Hall. apply meter_of_nonneg.
  unfold exec. rewrite (cycle_frame s h Ha Hr values Hne).
  cbn [snd]. rewrite published_volume. apply volume_nonneg; assumption.
Qed.

Lemma meter_full_after_reading_witness :
  volumePercentage
    (exec (analyzeWithTone (GetValueReturns (Some [Fin (1 # 100000); NInf])))
          (run short_session initial)) = of_Z 100.
Proof.
  apply (meter_full_after_reading (run short_session initial) 1);
    [reflexivity | reflexivity | discriminate | repeat constructor].
Defined.

Lemma meter_clamped_witness :
  between 0 100 (volumePercentage initial) /\
  between 0 100 (volumePercentage (with_volume NInf initial)) /\
  volumePercentage (with_volume NaN initial) = NaN.
Proof.
  split; [| split].
  - apply (proj1 (meter_clamped initial)). reflexivity.
  - apply (proj1 (meter_clamped (with_volume NInf initial))). reflexivity.
  - apply (proj2 (meter_clamped (with_volume NaN initial))). reflexivity.
Defined.

(** The bands written by [updateFrequencyBars] into an array of 32 cells
    do not depend on what the cells held. *)
Lemma bars_written_fresh (values arr arr' : list num) :
  length arr = 32%nat -> length arr' = 32%nat ->
  bars_written values (seq 0 32) arr = bars_written values (seq 0 32) arr'.
Proof.
  intros H H'. apply (nth_ext _ _ NaN NaN).
  - rewrite !bars_written_length by assumption. reflexivity.
  - intros k Hk. rewrite bars_written_length in Hk by exact H.
    rewrite !bars_written_nth by assumption. reflexivity.
Qed.

(** X20: a cycle overwrites the whole snapshot: the frequency, volume and
    bands published on a non-empty frame are a function of the frame
    alone, whatever was published before. *)
Theorem metrics_depend_only_on_frame (s1 s2 : state) (h1 h2 : nat)
        (values : list num) :
  reachable s1 -> reachable s2 ->
  analyser s1 = Some h1 -> isRecording s1 = true ->
  analyser s2 = Some h2 -> isRecording s2 = true ->
  values <> [] ->
  let s1' := exec (analyzeWithTone (GetValueReturns (Some values))) s1 in
  let s2' := exec (analyzeWithTone (GetValueReturns (Some values))) s2 in
  frequency s1' = frequency s2' /\
  volume s1' = volume s2' /\
  frequencyBars s1' = frequencyBars s2'.
Proof.
  intros Hs1 Hs2 Ha1 Hr1 Ha2 Hr2 Hne. unfold exec.
  rewrite (cycle_frame s1 h1 Ha1 Hr1 values Hne).
  rewrite (cycle_frame s2 h2 Ha2 Hr2 values Hne).
  cbn [snd]. rewrite !published_frequency, !published_volume, !published_bars.
  split; [reflexivity |]. split; [reflexivity |].
  apply bars_written_fresh; apply reachable_bars_length; assumption.
Qed.

Lemma metrics_depend_only_on_frame_witness :
  let frame := repeat zero 16 ++ repeat (Fin (3 # 10)) 16 in
  let s1 := run short_session initial in
  let s2 := run (short_session
                   ++ [AnimationFrame
                         (GetValueReturns (Some (repeat (of_Z (-80)) 64)))])
                initial in
  let s1' := exec (analyzeWithTone (GetValueReturns (Some frame))) s1 in
  let s2' := exec (analyzeWithTone (GetValueReturns (Some frame))) s2 in
  (frequency s1 <> frequency s2 /\ volume s1 <> volume s2 /\
   frequencyBars s1 <> frequencyBars s2) /\
  (frequency s1' = frequency s2' /\ volume s1' = volume s2' /\
   frequencyBars s1' = frequencyBars s2') /\
  (frequency s1' = of_Z 11025 /\ volume s1' = of_Z 150 /\
   frequencyBars s1' = repeat zero 16 ++ repeat (of_Z 100) 16 /\
   frequencyBars s1' <> frequencyBars s1 /\
   frequencyBars s1' <> frequencyBars s2).
Proof.
  cbv zeta. split; [| split].
  - repeat split; intros H; vm_compute in H; discriminate.
  - apply (metrics_depend_only_on_frame
             (run short_session initial)
             (run (short_session
                     ++ [AnimationFrame
                           (GetValueReturns (Some (repeat (of_Z (-80)) 64)))])
                  initial)
             1 1).
    + exact short_session_reachable.
    + apply reachable_run, reachable_initial.
    + reflexivity.
    + reflexivity.
    + vm_compute. reflexivity.
    + vm_compute. reflexivity.
    + discriminate.
  - split; [vm_compute; reflexivity |]. split; [vm_compute; reflexivity |].
    split; [vm_compute; reflexivity |].
    split; intros H; vm_compute in H; discriminate.
Defined.

(** ** The meter classes of the template, lines 27-31 *)

(** [a < b] *)
Definition js_lt (a b : num) : bool := gt b a.

(** [a >= b]; false as soon as one side is [NaN]. *)
Definition js_ge (a b : num) : bool :=
  match a, b with
  | NaN, _ | _, NaN => false
  | _, _ => negb (gt b a)
  end.

(** ['low': volumePercentage < 33] *)
Definition meter_low (s : state) : bool := js_lt (volumePercentage s) (of_Z 33).

(** ['medium': volumePercentage >= 33 && volumePercentage < 66] *)
Definition meter_medium (s : state) : bool :=
  js_ge (volumePercentage s) (of_Z 33) && js_lt (volumePercentage s) (of_Z 66).

(** ['high': volumePercentage >= 66] *)
Definition meter_high (s : state) : bool := js_ge (volumePercentage s) (of_Z 66).

(** X21: the three meter classes partition the numbers: when the volume
    is a number exactly one of low, medium and high is set, and when it is
    [NaN] none is. *)
Theorem meter_class_partition (s : state) :
  (is_nan (volume s) = false ->
   (meter_low s, meter_medium s, meter_high s) = (true, false, false) \/
   (meter_low s, meter_medium s, meter_high s) = (false, true, false) \/
   (meter_low s, meter_medium s, meter_high s) = (false, false, true)) /\
  (is_nan (volume s) = true ->
   (meter_low s, meter_medium s, meter_high s) = (false, false, false)).
Proof.
  destruct (volumePercentage_range s) as [Hnum Hnan]. split.
  - intros Hv. specialize (Hnum Hv).
    unfold meter_low, meter_medium, meter_high, js_lt, js_ge.
    destruct (volumePercentage s) as [| | | q]; cbn in Hnum; try tauto.
    unfold of_Z. cbn [gt].
    destruct (Qlt_bool q (inject_Z 33)) eqn:E33;
      destruct (Qlt_bool q (inject_Z 66)) eqn:E66; cbn; auto.
    exfalso. apply Qlt_bool_iff in E33. apply Qlt_bool_false in E66.
    change (inject_Z 33) with 33 in E33. change (inject_Z 66) with 66 in E66.
    lra.
  - intros Hv. unfold meter_low, meter_medium, meter_high.
    rewrite (Hnan Hv). reflexivity.
Qed.

Lemma meter_class_partition_witness :
  (meter_low initial, meter_medium initial, meter_high initial)
  = (true, false, false)
  /\
  (meter_low (run short_session initial),
   meter_medium (run short_session initial),
   meter_high (run short_session initial)) = (false, false, true).
Proof.
  split.
  - destruct (proj1 (meter_class_partition initial) eq_refl) as [H | [H | H]];
      [exact H | vm_compute in H; discriminate | vm_compute in H; discriminate].
  - destruct (proj1 (meter_class_partition (run short_session initial)) eq_refl)
      as [H | [H | H]];
      [vm_compute in H; discriminate | vm_compute in H; discriminate | exact H].
Defined.

(** ** The await of line 83 *)

(** [start()] up to the call of [mic.open()], lines 70-83.  Returns [true]
    when the function is now suspended at the [await]; the constructors
    and [connect] may throw, which the [catch] of lines 89-93 handles at
    once. *)
Definition start_until_await (acq : acquisition) : M bool :=
  recording <- read isRecording ;;
  if recording then ret false
  else
    try_catch
      (write (with_error EmptyString) ;;
       a <- new_Analyser acq ;;
       write (with_analyser (Some a)) ;;
       m <- new_UserMedia acq ;;
       write (with_mic (Some m)) ;;
       mic_connect acq m a ;;
       ret true)
      (fun err =>
         console_error "Error with Tone.js:" ;;
         write (with_error
                  "Failed to access microphone. Please check permissions and try again.") ;;
         write (with_isRecording false) ;;
         ret false).

(** [start()] from the settlement of [mic.open()] on, lines 83-93:
    [opened] tells whether the promise resolved. *)
Definition start_after_await (opened : bool) (p : poll_result) : M unit :=
  try_catch
    ((if opened then ret tt else throw "NotAllowedError") ;;
     write (with_isRecording true) ;;
     analyzeWithTone p)
    (fun err =>
       console_error "Error with Tone.js:" ;;
       write (with_error
                "Failed to access microphone. Please check permissions and try again.") ;;
       write (with_isRecording false)).

(** Whether [mic.open()] resolves under [acq]. *)
Definition opens (acq : acquisition) : bool :=
  match acq with Acquired => true | _ => false end.

(** The callback of the request at position [k] of the queue runs.  The
    queue holds the newest request first. *)
Definition fire_request (k : nat) (p : poll_result) : M unit :=
  q <- read scheduled ;;
  match nth_error q k with
  | None => ret tt
  | Some id =>
      write (with_scheduled (firstn k q ++ skipn (S k) q)) ;;
      analyzeWithTone p
  end.

(** The component with its suspended calls: [opening] counts the
    [start()] calls waiting for [mic.open()] to settle.  Their
    continuations use no local variable, so a count is all there is to
    remember. *)
Record component : Type := mkComponent {
  st : state;
  opening : nat
}.

Definition loaded : component := {| st := initial; opening := 0 |}.

(** What can happen, with the settlement of [mic.open()] as an occurrence
    of its own: anything may come between a click on Start and it.  The
    Start button is disabled by [isRecording], which is still false while
    [start()] waits. *)
Inductive occurrence : Type :=
| StartClicked (acq : acquisition)
| OpenSettled (opened : bool) (p : poll_result)
| StopClicked
| FrameRequested (k : nat) (p : poll_result)
| ComponentUnmounted.

Definition occur (o : occurrence) (c : component) : component :=
  match o with
  | StartClicked acq =>
      match start_until_await acq (st c) with
      | (Returned true, s') => {| st := s'; opening := S (opening c) |}
      | (_, s') => {| st := s'; opening := opening c |}
      end
  | OpenSettled opened p =>
      match opening c with
      | O => c
      | S n => {| st := exec (start_after_await opened p) (st c); opening := n |}
      end
  | StopClicked => {| st := exec stop (st c); opening := opening c |}
  | FrameRequested k p =>
      {| st := exec (fire_request k p) (st c); opening := opening c |}
  | ComponentUnmounted => {| st := exec stop (st c); opening := opening c |}
  end.

Definition unfold_history (history : list occurrence) (c : component) : component :=
  fold_left (fun c o => occur o c) history c.

(** States the component can be in, interleavings included. *)
Inductive attainable : component -> Prop :=
| attainable_loaded : attainable loaded
| attainable_occur c o : attainable c -> attainable (occur o c).

(** An event of the sections above as occurrences: the settlement of
    [mic.open()] follows the click at once. *)
Definition settled_at_once (e : event) : list occurrence :=
  match e with
  | ClickStart acq p => [StartClicked acq; OpenSettled (opens acq) p]
  | ClickStop => [StopClicked]
  | AnimationFrame p => [FrameRequested 0 p]
  | Unmounted => [ComponentUnmounted]
  end.

(** A history in which nothing happens while a [start()] is suspended. *)
Definition serialized (history : list occurrence) : Prop :=
  exists events, history = flat_map settled_at_once events.

(** The error field holds nothing but the empty string or the message. *)
Definition error_known (s : state) : Prop :=
  error s = EmptyString \/ error s = microphone_message.

(** Run back to back, the two halves are [start]. *)
Lemma start_split (acq : acquisition) (p : poll_result) (s : state) :
  start acq p s
  = (suspended <- start_until_await acq ;;
     if suspended then start_after_await (opens acq) p else ret tt) s.
Proof.
  destruct (isRecording s) eqn:Hr.
  - rewrite start_recording by exact Hr.
    unfold start_until_await. rewrite bind_bind, bind_read, Hr. reflexivity.
  - destruct acq.
    + rewrite start_acquired by exact Hr.
      unfold start_until_await. rewrite bind_bind, bind_read, Hr.
      replace ((suspended <-
                try_catch
                  (write (with_error EmptyString);;
                   a <- new_Analyser Acquired;;
                   write (with_analyser (Some a));;
                   m <- new_UserMedia Acquired;;
                   write (with_mic (Some m));; mic_connect Acquired m a;; ret true)
                  (fun _ : string =>
                   console_error "Error with Tone.js:";;
                   write
                     (with_error
                        "Failed to access microphone. Please check permissions and try again.");;
                   write (with_isRecording false);; ret false);;
                (if suspended then start_after_await (opens Acquired) p else ret tt)) s)
        with (start_after_await true p (with_isRecording false (acquired s)))
        by (destruct s; cbn in Hr; subst; reflexivity).
      unfold start_after_await, try_catch.
      rewrite bind_ret, bind_write.
      replace (with_isRecording true (with_isRecording false (acquired s)))
        with (acquired s) by (destruct s; reflexivity).
      rewrite analyzeWithTone_returns. reflexivity.
    + rewrite start_failed by (auto; discriminate).
      unfold start_until_await. rewrite bind_bind, bind_read, Hr.
      destruct s; reflexivity.
    + rewrite start_failed by (auto; discriminate).
      unfold start_until_await. rewrite bind_bind, bind_read, Hr.
      destruct s; reflexivity.
    + rewrite start_failed by (auto; discriminate).
      unfold start_until_await. rewrite bind_bind, bind_read, Hr.
      destruct s; reflexivity.
    + rewrite start_failed by (auto; discriminate).
      unfold start_until_await. rewrite bind_bind, bind_read, Hr.
      destruct s; reflexivity.
Qed.

Lemma fire_request_head (p : poll_result) (s : state) :
  fire_request 0 p s = fire_animation_frame p s.
Proof.
  unfold fire_request, fire_animation_frame. rewrite !bind_read.
  destruct (scheduled s) as [| id rest]; reflexivity.
Qed.

Lemma start_until_await_suspends (acq : acquisition) (s : state) :
  fst (start_until_await acq s)
  = Returned (negb (isRecording s)
              && match acq with Acquired | OpenRejects => true | _ => false end).
Proof.
  unfold start_until_await. rewrite bind_read.
  destruct (isRecording s); [reflexivity |].
  destruct s, acq; reflexivity.
Qed.

Lemma occur_settled_at_once (e : event) (s : state) :
  unfold_history (settled_at_once e) {| st := s; opening := 0 |}
  = {| st := exec (handle e) s; opening := 0 |}.
Proof.
  destruct e as [acq p | | p |]; try reflexivity.
  - cbn [settled_at_once unfold_history fold_left handle occur st opening].
    unfold exec. rewrite start_split. unfold bind at 1.
    pose proof (start_until_await_suspends acq s) as Hs.
    destruct (start_until_await acq s) as [[b | err] s'] eqn:E; cbn in Hs;
      [| discriminate].
    injection Hs as Hb. destruct b.
    + cbn [occur opening st]. reflexivity.
    + cbn [occur opening st]. reflexivity.
  - cbn [settled_at_once unfold_history fold_left handle occur st opening].
    unfold exec. rewrite fire_request_head. reflexivity.
Qed.

(** A serialized history does what [run] does on the events it comes
    from. *)
Lemma serialized_run (events : list event) (s : state) :
  unfold_history (flat_map settled_at_once events) {| st := s; opening := 0 |}
  = {| st := run events s; opening := 0 |}.
Proof.
  revert s. induction events as [| e rest IH]; intros s; [reflexivity |].
  cbn [flat_map]. unfold unfold_history. rewrite fold_left_app.
  fold (unfold_history (settled_at_once e) {| st := s; opening := 0 |}).
  rewrite occur_settled_at_once.
  fold (unfold_history (flat_map settled_at_once rest)
          {| st := exec (handle e) s; opening := 0 |}).
  rewrite IH. reflexivity.
Qed.

(** After a serialized history the component is in a state of [reachable],
    with no call suspended. *)
Lemma serialized_reachable (history : list occurrence) :
  serialized history ->
  reachable (st (unfold_history history loaded)) /\
  opening (unfold_history history loaded) = 0%nat.
Proof.
  intros [events ->]. unfold loaded. rewrite serialized_run. cbn [st opening].
  split; [| reflexivity]. apply reachable_run, reachable_initial.
Qed.


Lemma cycle_keeps_error (p : poll_result) (s : state) :
  error (exec (analyzeWithTone p) s) = error s.
Proof.
  unfold exec.
  destruct (analyser s) as [h |] eqn:Ha; [| rewrite cycle_guard; auto].
  destruct (isRecording s) eqn:Hr; [| rewrite cycle_guard; auto].
  destruct p as [| [[| x xs] |]].
  - rewrite (cycle_throws s h Ha Hr), stop_run. reflexivity.
  - rewrite (cycle_no_frame s h Ha Hr); auto.
  - rewrite (cycle_frame s h Ha Hr) by discriminate. reflexivity.
  - rewrite (cycle_no_frame s h Ha Hr); auto.
Qed.

(** The first half of [start()] leaves the metrics alone, and so does the
    handler of the second half. *)
Lemma start_until_await_metrics (acq : acquisition) (s : state) :
  let s' := snd (start_until_await acq s) in
  frequency s' = frequency s /\ volume s' = volume s /\
  frequencyBars s' = frequencyBars s /\
  (error s' = EmptyString \/ error s' = microphone_message \/ s' = s).
Proof.
  unfold start_until_await. rewrite bind_read.
  destruct (isRecording s); [cbn; auto 10 |].
  destruct s, acq; cbn; auto 10.
Qed.

Lemma start_after_await_resolved (p : poll_result) (s : state) :
  start_after_await true p s
  = (Returned tt, exec (analyzeWithTone p) (with_isRecording true s)).
Proof.
  unfold start_after_await, try_catch.
  rewrite bind_ret, bind_write, analyzeWithTone_returns. reflexivity.
Qed.

Lemma exec_after_await_resolved (p : poll_result) (s : state) :
  exec (start_after_await true p) s
  = exec (analyzeWithTone p) (with_isRecording true s).
Proof. unfold exec at 1. rewrite start_after_await_resolved. reflexivity. Qed.

Lemma exec_after_await_rejected (p : poll_result) (s : state) :
  exec (start_after_await false p) s
  = with_isRecording false
      (with_error microphone_message
         (with_console ("Error with Tone.js:" :: console s) s)).
Proof. destruct s; reflexivity. Qed.

Lemma exec_fire_request (k : nat) (p : poll_result) (s : state) :
  exec (fire_request k p) s = s \/
  exec (fire_request k p) s
  = exec (analyzeWithTone p)
         (with_scheduled (firstn k (scheduled s) ++ skipn (S k) (scheduled s)) s).
Proof.
  unfold fire_request, exec. rewrite bind_read.
  destruct (nth_error (scheduled s) k); [right | left; reflexivity].
  rewrite bind_write. reflexivity.
Qed.

Lemma error_known_occur (o : occurrence) (c : component) :
  error_known (st c) -> error_known (st (occur o c)).
Proof.
  intros Hc. unfold error_known in *.
  assert (Hstop : error (exec stop (st c)) = error (st c))
    by (unfold exec; rewrite stop_run; reflexivity).
  destruct o as [acq | opened p | | k p |]; cbn [occur].
  - destruct (start_until_await_metrics acq (st c)) as (_ & _ & _ & H).
    destruct (start_until_await acq (st c)) as [[[|] | err] s']; cbn [st snd] in *;
      destruct H as [H | [H | H]]; auto; rewrite H; exact Hc.
  - destruct (opening c); [exact Hc |]. cbn [st].
    destruct opened.
    + rewrite exec_after_await_resolved, cycle_keeps_error.
      destruct (st c); exact Hc.
    + rewrite exec_after_await_rejected. right. reflexivity.
  - cbn [st]. rewrite Hstop. exact Hc.
  - cbn [st]. destruct (exec_fire_request k p (st c)) as [-> | ->]; [exact Hc |].
    rewrite cycle_keeps_error. destruct (st c); exact Hc.
  - cbn [st]. rewrite Hstop. exact Hc.
Qed.

Lemma attainable_error_known (c : component) :
  attainable c -> error_known (st c).
Proof.
  induction 1 as [| c o Hc IH]; [left; reflexivity |].
  apply error_known_occur, IH.
Qed.

Lemma cycle_bars_length (p : poll_result) (s : state) :
  length (frequencyBars s) = 32%nat ->
  length (frequencyBars (exec (analyzeWithTone p) s)) = 32%nat.
Proof.
  intros Hs. unfold exec.
  destruct (analyser s) as [h |] eqn:Ha; [| rewrite cycle_guard; auto].
  destruct (isRecording s) eqn:Hr; [| rewrite cycle_guard; auto].
  destruct p as [| [[| x xs] |]].
  - rewrite (cycle_throws s h Ha Hr), stop_run. reflexivity.
  - rewrite (cycle_no_frame s h Ha Hr); auto.
  - rewrite (cycle_frame s h Ha Hr) by discriminate.
    cbn [snd]. rewrite published_bars. apply bars_written_length, Hs.
  - rewrite (cycle_no_frame s h Ha Hr); auto.
Qed.

(** The bands are 32 and the frequency is an integer of [0, 22050]. *)
Definition well_shaped (s : state) : Prop :=
  length (frequencyBars s) = 32%nat /\ frequency_ok s.

Lemma well_shaped_cycle (p : poll_result) (s : state) :
  well_shaped s -> well_shaped (exec (analyzeWithTone p) s).
Proof.
  intros [Hb Hf]. split; [apply cycle_bars_length, Hb |].
  apply cycle_frequency_ok, Hf.
Qed.

Lemma well_shaped_occur (o : occurrence) (c : component) :
  well_shaped (st c) -> well_shaped (st (occur o c)).
Proof.
  intros Hc.
  assert (Hstop : well_shaped (exec stop (st c))).
  { destruct Hc as [_ Hf]. unfold exec. rewrite stop_run.
    split; [reflexivity | exact Hf]. }
  destruct o as [acq | opened p | | k p |]; cbn [occur]; try exact Hstop.
  - destruct (start_until_await_metrics acq (st c)) as (Hf & _ & Hb & _).
    destruct Hc as [Hcb Hcf].
    destruct (start_until_await acq (st c)) as [[[|] | err] s']; cbn [st snd] in *;
      (split; [rewrite Hb; exact Hcb |
               unfold frequency_ok; rewrite Hf; exact Hcf]).
  - destruct (opening c); [exact Hc |]. cbn [st].
    destruct opened.
    + rewrite exec_after_await_resolved. apply well_shaped_cycle.
      destruct (st c); exact Hc.
    + rewrite exec_after_await_rejected. destruct (st c); exact Hc.
  - cbn [st]. destruct (exec_fire_request k p (st c)) as [-> | ->]; [exact Hc |].
    apply well_shaped_cycle. destruct (st c); exact Hc.
Qed.

Lemma attainable_well_shaped (c : component) :
  attainable c -> well_shaped (st c).
Proof.
  induction 1 as [| c o Hc IH].
  - split; [reflexivity |]. exists 0%Z. split; [reflexivity | lia].
  - apply well_shaped_occur, IH.
Qed.

Lemma attainable_unfold (history : list occurrence) (c : component) :
  attainable c -> attainable (unfold_history history c).
Proof.
  revert c. induction history as [| o rest IH]; intros c Hc; [exact Hc |].
  cbn [unfold_history fold_left]. apply IH, attainable_occur, Hc.
Qed.

(** The state in which a [start()] waits for [mic.open()]. *)
Lemma start_until_await_run (s : state) :
  isRecording s = false ->
  start_until_await Acquired s = (Returned true, with_isRecording false (acquired s)).
Proof.
  intros Hr. unfold start_until_await. rewrite bind_read, Hr.
  destruct s; cbn in Hr; subst; reflexivity.
Qed.

Lemma start_after_await_guard (p : poll_result) (s : state) :
  analyser s = None ->
  start_after_await true p s = (Returned tt, with_isRecording true s).
Proof.
  intros Ha. unfold start_after_await, try_catch.
  rewrite bind_ret, bind_write.
  rewrite cycle_guard by (left; destruct s; exact Ha). reflexivity.
Qed.

(** What a cycle with a returning [getValue()] does to the platform. *)
Lemma cycle_platform (s : state) (h : nat) (values : option (list num)) :
  analyser s = Some h ->
  isRecording s = true ->
  let s' := exec (analyzeWithTone (GetValueReturns values)) s in
  isRecording s' = true /\ mic s' = mic s /\ analyser s' = analyser s /\
  live s' = live s /\ scheduled s' = fresh s :: scheduled s /\
  fresh s' = S (fresh s) /\ animationFrameId s' = Some (fresh s).
Proof.
  intros Ha Hr. unfold exec.
  destruct values as [[| x xs] |].
  - rewrite (cycle_no_frame s h Ha Hr) by auto. cbn. rewrite Hr. auto 10.
  - rewrite (cycle_frame s h Ha Hr) by discriminate.
    cbn -[round mul div sum_abs find_peak bars_written]. rewrite Hr. auto 10.
  - rewrite (cycle_no_frame s h Ha Hr) by auto. cbn. rewrite Hr. auto 10.
Qed.



(** X3: in every state the component can be in, interleavings at the
    [await] included, the error field is empty or the fixed microphone
    message; and along histories in which nothing happens while a
    [start()] waits for [mic.open()], it is empty whenever the component is
    recording. *)
Theorem error_field_values :
  (forall c, attainable c ->
             error (st c) = EmptyString \/ error (st c) = microphone_message) /\
  (forall history,
      serialized history ->
      isRecording (st (unfold_history history loaded)) = true ->
      error (st (unfold_history history loaded)) = EmptyString).
Proof.
  split.
  - exact attainable_error_known.
  - intros history Hh Hr. destruct (serialized_reachable history Hh) as [Hs _].
    destruct (reachable_coherent _ Hs) as (_ & _ & Hrec).
    rewrite Hr in Hrec. apply Hrec.
Qed.

Lemma error_field_values_witness :
  error (st (unfold_history
               (flat_map settled_at_once
                  (ClickStart OpenRejects GetValueThrows :: short_session))
               loaded))
  = EmptyString /\
  error (st (occur (OpenSettled false GetValueThrows)
               (occur (StartClicked Acquired) loaded)))
  = microphone_message.
Proof.
  split.
  - apply (proj2 error_field_values).
    + exists (ClickStart OpenRejects GetValueThrows :: short_session).
      reflexivity.
    + unfold loaded. rewrite serialized_run. reflexivity.
  - destruct (proj1 error_field_values
                (occur (OpenSettled false GetValueThrows)
                   (occur (StartClicked Acquired) loaded))) as [H | H].
    + apply attainable_occur, attainable_occur, attainable_loaded.
    + vm_compute in H. discriminate.
    + exact H.
Defined.





(** X23: if [stop()] runs while [start()] waits for [mic.open()] (the
    component is unmounted, say) and [open()] then resolves, the component
    ends up reporting that it records, with both handles null, the two
    objects of that [start()] disposed, no request added, and every later
    callback returning at its first line. *)
Theorem stop_while_opening (s : state) (p : poll_result) :
  isRecording s = false ->
  let c := unfold_history
             [StartClicked Acquired; ComponentUnmounted; OpenSettled true p]
             {| st := s; opening := 0 |} in
  isRecording (st c) = true /\
  mic (st c) = None /\ analyser (st c) = None /\
  ~ In (Mic (S (fresh s))) (live (st c)) /\
  ~ In (Analyser (fresh s)) (live (st c)) /\
  (forall id, In id (scheduled (st c)) -> In id (scheduled s)) /\
  error (st c) = EmptyString /\
  opening c = 0%nat /\
  (forall p', analyzeWithTone p' (st c) = (Returned tt, st c)).
Proof.
  intros Hr. cbv zeta. cbn [unfold_history fold_left occur st opening].
  rewrite (start_until_await_run s Hr). cbn [st opening].
  unfold exec at 1.
  rewrite start_after_await_guard by (unfold exec; rewrite stop_run; reflexivity).
  unfold exec. rewrite stop_run.
  cbn [snd st opening isRecording mic analyser live scheduled error
       with_isRecording acquired animationFrameId].
  split; [reflexivity |]. split; [reflexivity |]. split; [reflexivity |].
  split; [| split; [| split; [| split; [| split]]]]; try reflexivity.
  - intros Hin. apply in_filter_weaken in Hin.
    revert Hin. apply not_in_after_dispose.
  - apply not_in_after_dispose.
  - intros id Hin. destruct (animationFrameId s) as [[| n] |];
      [exact Hin | apply in_filter_weaken in Hin; exact Hin | exact Hin].
Qed.

Lemma stop_while_opening_witness :
  let c := unfold_history
             [StartClicked Acquired; ComponentUnmounted;
              OpenSettled true (GetValueReturns (Some [of_Z 1]))]
             loaded in
  attainable c /\
  isRecording (st c) = true /\ mic (st c) = None /\ analyser (st c) = None /\
  error (st c) = EmptyString /\ opening c = 0%nat.
Proof.
  destruct (stop_while_opening initial (GetValueReturns (Some [of_Z 1])) eq_refl)
    as (Hflag & Hm & Ha & _ & _ & _ & He & Ho & _).
  split; [apply attainable_unfold, attainable_loaded |].
  exact (conj Hflag (conj Hm (conj Ha (conj He Ho)))).
Defined.

(** X24: the Start button stays enabled while [start()] waits for
    [mic.open()].  A second click in that window constructs a second pair
    of objects and overwrites the handles; when both promises resolve,
    two analysis requests are pending, and a later [stop()] disposes only
    the second pair and cancels only the last request: the first
    microphone and analyser are never released. *)
Theorem overlapping_starts (s : state) (values1 values2 : option (list num)) :
  isRecording s = false ->
  let n := fresh s in
  let c := unfold_history
             [StartClicked Acquired; StartClicked Acquired;
              OpenSettled true (GetValueReturns values1);
              OpenSettled true (GetValueReturns values2)]
             {| st := s; opening := 0 |} in
  let stopped_state := exec stop (st c) in
  isRecording (st c) = true /\ opening c = 0%nat /\
  analyser (st c) = Some (2 + n)%nat /\ mic (st c) = Some (3 + n)%nat /\
  live (st c)
  = Mic (3 + n) :: Analyser (2 + n) :: Mic (1 + n) :: Analyser n :: live s /\
  scheduled (st c) = (5 + n)%nat :: (4 + n)%nat :: scheduled s /\
  isRecording stopped_state = false /\
  In (Mic (1 + n)) (live stopped_state) /\
  In (Analyser n) (live stopped_state) /\
  In (4 + n)%nat (scheduled stopped_state).
Proof.
  intros Hr. cbv zeta. cbn [unfold_history fold_left].
  set (s1 := with_isRecording false (acquired s)).
  set (s2 := with_isRecording false (acquired s1)).
  assert (E1 : occur (StartClicked Acquired) {| st := s; opening := 0 |}
               = {| st := s1; opening := 1 |}).
  { cbn [occur st opening]. rewrite (start_until_await_run s Hr). reflexivity. }
  rewrite E1.
  assert (E2 : occur (StartClicked Acquired) {| st := s1; opening := 1 |}
               = {| st := s2; opening := 2 |}).
  { cbn [occur st opening].
    rewrite (start_until_await_run s1) by reflexivity. reflexivity. }
  rewrite E2. cbn [occur st opening].
  rewrite !exec_after_await_resolved.
  set (t1 := with_isRecording true s2).
  destruct (cycle_platform t1 (2 + fresh s) values1 eq_refl eq_refl)
    as (Hr3 & Hm3 & Ha3 & Hl3 & Hq3 & Hf3 & Hid3).
  set (s3 := exec (analyzeWithTone (GetValueReturns values1)) t1) in *.
  set (t2 := with_isRecording true s3).
  assert (Ha3' : analyser t2 = Some (2 + fresh s)%nat) by (exact Ha3).
  destruct (cycle_platform t2 (2 + fresh s) values2 Ha3' eq_refl)
    as (Hr4 & Hm4 & Ha4 & Hl4 & Hq4 & Hf4 & Hid4).
  set (s4 := exec (analyzeWithTone (GetValueReturns values2)) t2) in *.
  change (mic t2) with (mic s3) in Hm4.
  change (analyser t2) with (analyser s3) in Ha4.
  change (live t2) with (live s3) in Hl4.
  change (scheduled t2) with (scheduled s3) in Hq4.
  change (fresh t2) with (fresh s3) in Hq4, Hf4, Hid4.
  change (mic t1) with (Some (3 + fresh s)%nat) in Hm3.
  change (analyser t1) with (Some (2 + fresh s)%nat) in Ha3.
  change (live t1)
    with (Mic (3 + fresh s) :: Analyser (2 + fresh s)
            :: Mic (1 + fresh s) :: Analyser (fresh s) :: live s) in Hl3.
  change (scheduled t1) with (scheduled s) in Hq3.
  change (fresh t1) with (4 + fresh s)%nat in Hq3, Hf3, Hid3.
  rewrite Hf3 in Hq4, Hid4. rewrite Hq3 in Hq4. rewrite Hl3 in Hl4.
  rewrite Hm3 in Hm4. rewrite Ha3 in Ha4.
  split; [exact Hr4 |]. split; [reflexivity |].
  split; [exact Ha4 |]. split; [exact Hm4 |].
  split; [exact Hl4 |]. split; [exact Hq4 |].
  unfold exec. rewrite stop_run. cbn [snd isRecording live scheduled].
  rewrite Hm4, Ha4, Hl4, Hid4, Hq4.
  split; [reflexivity |].
  split; [| split].
  - apply filter_In. split.
    + apply filter_In. split; [cbn; auto |].
      cbn [resource_eqb negb]. apply negb_true_iff, Nat.eqb_neq. lia.
    + reflexivity.
  - apply filter_In. split.
    + apply filter_In. split; [cbn; auto |]. reflexivity.
    + cbn [resource_eqb negb]. apply negb_true_iff, Nat.eqb_neq. lia.
  - apply filter_In. split; [cbn; auto |].
    apply negb_true_iff, Nat.eqb_neq. lia.
Qed.

Lemma overlapping_starts_witness :
  let c := unfold_history
             [StartClicked Acquired; StartClicked Acquired;
              OpenSettled true (GetValueReturns None);
              OpenSettled true (GetValueReturns None)]
             loaded in
  attainable c /\
  scheduled (st c) = [6%nat; 5%nat] /\
  live (st c) = [Mic 4; Analyser 3; Mic 2; Analyser 1] /\
  In (Mic 2) (live (exec stop (st c))) /\
  In (Analyser 1) (live (exec stop (st c))) /\
  In 5%nat (scheduled (exec stop (st c))).
Proof.
  destruct (overlapping_starts initial None None eq_refl)
    as (_ & _ & _ & _ & Hl & Hq & _ & Hm & Ha & Hid).
  split; [apply attainable_unfold, attainable_loaded |].
  exact (conj Hq (conj Hl (conj Hm (conj Ha Hid)))).
Defined.

(** X26: with two [start()] calls waiting for [mic.open()], if one
    promise rejects and the other then resolves, the component records
    while the error field still shows the microphone message: line 91
    ran after the line 73 of both calls, and line 84 sets the flag
    without clearing the field. *)
Theorem rejected_then_resolved (s : state) (values : option (list num)) :
  isRecording s = false ->
  let c := unfold_history
             [StartClicked Acquired; StartClicked Acquired;
              OpenSettled false GetValueThrows;
              OpenSettled true (GetValueReturns values)]
             {| st := s; opening := 0 |} in
  isRecording (st c) = true /\
  error (st c) = microphone_message /\
  (exists m, mic (st c) = Some m) /\ (exists a, analyser (st c) = Some a) /\
  opening c = 0%nat.
Proof.
  intros Hr. cbv zeta. cbn [unfold_history fold_left].
  set (s1 := with_isRecording false (acquired s)).
  set (s2 := with_isRecording false (acquired s1)).
  assert (E1 : occur (StartClicked Acquired) {| st := s; opening := 0 |}
               = {| st := s1; opening := 1 |}).
  { cbn [occur st opening]. rewrite (start_until_await_run s Hr). reflexivity. }
  rewrite E1.
  assert (E2 : occur (StartClicked Acquired) {| st := s1; opening := 1 |}
               = {| st := s2; opening := 2 |}).
  { cbn [occur st opening].
    rewrite (start_until_await_run s1) by reflexivity. reflexivity. }
  rewrite E2. cbn [occur st opening].
  rewrite exec_after_await_rejected, exec_after_await_resolved.
  set (t := with_isRecording true _).
  destruct (cycle_platform t (2 + fresh s) values eq_refl eq_refl)
    as (Hrec & Hm & Ha & _).
  split; [exact Hrec |].
  split; [rewrite cycle_keeps_error; reflexivity |].
  split; [rewrite Hm; eexists; reflexivity |].
  split; [rewrite Ha; eexists; reflexivity | reflexivity].
Qed.

Lemma rejected_then_resolved_witness :
  let c := unfold_history
             [StartClicked Acquired; StartClicked Acquired;
              OpenSettled false GetValueThrows;
              OpenSettled true (GetValueReturns (Some [of_Z 0; of_Z 1]))]
             loaded in
  attainable c /\
  isRecording (st c) = true /\ error (st c) = microphone_message /\
  error (st c) <> EmptyString.
Proof.
  destruct (rejected_then_resolved initial (Some [of_Z 0; of_Z 1]) eq_refl)
    as (Hr & He & _).
  split; [apply attainable_unfold, attainable_loaded |].
  split; [exact Hr |]. split; [exact He |].
  cbv zeta in He. unfold loaded. rewrite He.
  unfold microphone_message. discriminate.
Defined.

(** X27: in every state the component can be in, whatever runs while a
    [start()] waits for [mic.open()] and in whatever order the pending
    callbacks run, there are 32 bands and the published frequency is an
    integer between 0 and 22050. *)
Theorem attainable_metrics_shape (c : component) :
  attainable c ->
  length (frequencyBars (st c)) = 32%nat /\
  exists z, frequency (st c) = of_Z z /\ (0 <= z <= 22050)%Z.
Proof.
  intros Hc. exact (attainable_well_shaped c Hc).
Qed.

Lemma attainable_metrics_shape_witness :
  let c := unfold_history
             [StartClicked Acquired; StartClicked Acquired;
              OpenSettled true (GetValueReturns (Some [of_Z 0; of_Z 1]));
              OpenSettled true (GetValueReturns (Some [NaN; PInf; NInf]));
              FrameRequested 1 (GetValueReturns (Some [of_Z 0; of_Z 0; of_Z 5]));
              ComponentUnmounted;
              FrameRequested 0 GetValueThrows]
             loaded in
  length (frequencyBars (st c)) = 32%nat /\
  exists z, frequency (st c) = of_Z z /\ (0 <= z <= 22050)%Z.
Proof.
  apply attainable_metrics_shape, attainable_unfold, attainable_loaded.
Defined.

(** ** [stop()] when a release call throws *)

(** What the release calls of one [stop()] do. *)
Inductive release : Type :=
| Releases                (* every call returns *)
| CancelThrows            (* [cancelAnimationFrame()] throws *)
| CloseThrows             (* [mic.close()] throws *)
| MicDisposeThrows        (* [mic.dispose()] throws *)
| AnalyserDisposeThrows.  (* [analyser.dispose()] throws *)

Definition cancel_or_throw (r : release) (id : nat) : M unit :=
  match r with
  | CancelThrows => throw "cancelAnimationFrame"
  | _ => cancelAnimationFrame id
  end.

Definition mic_close_or_throw (r : release) (m : nat) : M unit :=
  match r with
  | CloseThrows => throw "close"
  | _ => mic_close m
  end.

Definition dispose_or_throw (r : release) (x : resource) : M unit :=
  match r, x with
  | MicDisposeThrows, Mic _ => throw "dispose"
  | AnalyserDisposeThrows, Analyser _ => throw "dispose"
  | _, _ => dispose x
  end.

(** [function stop()], lines 154-174, with release calls that may throw;
    the function has no [try]. *)
Definition stop_releasing (r : release) : M unit :=
  id <- read animationFrameId ;;
  match id with
  | Some (S n) =>
      cancel_or_throw r (S n) ;;
      write (with_animationFrameId None)
  | _ => ret tt
  end ;;
  m <- read mic ;;
  match m with
  | Some h =>
      mic_close_or_throw r h ;;
      dispose_or_throw r (Mic h) ;;
      write (with_mic None)
  | None => ret tt
  end ;;
  a <- read analyser ;;
  match a with
  | Some h =>
      dispose_or_throw r (Analyser h) ;;
      write (with_analyser None)
  | None => ret tt
  end ;;
  write (with_isRecording false) ;;
  write (with_frequencyBars (repeat zero 32)).

(** [stop] is [stop_releasing] when every release call returns. *)
Lemma stop_releasing_releases (s : state) : stop_releasing Releases s = stop s.
Proof. reflexivity. Qed.

(** X25: [stop()] is not protected against its own release calls: when
    [mic.close()], [mic.dispose()] or [analyser.dispose()] throws while
    both handles are set, the exception leaves [stop()], the pending
    request has already been cancelled, and the recording flag, the bands
    and the analyser handle stay as they were (the microphone handle too,
    unless it is the analyser's [dispose()] that threw). *)
Theorem stop_interrupted (r : release) (s : state) (m a : nat) :
  mic s = Some m ->
  analyser s = Some a ->
  r = CloseThrows \/ r = MicDisposeThrows \/ r = AnalyserDisposeThrows ->
  let s' := exec (stop_releasing r) s in
  (exists err, result (stop_releasing r) s = Thrown err) /\
  isRecording s' = isRecording s /\
  frequencyBars s' = frequencyBars s /\
  analyser s' = Some a /\
  (r <> AnalyserDisposeThrows -> mic s' = Some m) /\
  (forall n, animationFrameId s = Some (S n) ->
             animationFrameId s' = None /\ ~ In (S n) (scheduled s')).
Proof.
  intros Hm Ha Hr.
  destruct s as [f v rec e b mi an id l q n c]. cbn in Hm, Ha. subst mi an.
  cbv zeta.
  assert (Hcancel : forall k k',
             Some (S k) = Some (S k') ->
             ~ In (S k') (filter (fun x => negb (Nat.eqb (S k) x)) q)).
  { intros k k' E. injection E as <-. apply not_in_after_cancel. }
  destruct Hr as [-> | [-> | ->]]; destruct id as [[| k] |];
    (split; [eexists; reflexivity |]);
    (split; [reflexivity |]); (split; [reflexivity |]); (split; [reflexivity |]);
    (split; [intros; try reflexivity; congruence |]);
    intros k' Hk; try discriminate;
    (split; [reflexivity | apply Hcancel; exact Hk]).
Qed.

Lemma stop_interrupted_witness :
  let s := run short_session initial in
  (exists err, result (stop_releasing CloseThrows) s = Thrown err) /\
  isRecording (exec (stop_releasing CloseThrows) s) = true /\
  mic (exec (stop_releasing CloseThrows) s) = Some 2%nat /\
  animationFrameId (exec (stop_releasing CloseThrows) s) = None.
Proof.
  destruct (stop_interrupted CloseThrows (run short_session initial) 2 1
              eq_refl eq_refl (or_introl eq_refl))
    as (Hthrown & Hflag & _ & _ & Hmic & Hid).
  split; [exact Hthrown |]. split; [| split].
  - rewrite Hflag. reflexivity.
  - apply Hmic. discriminate.
  - apply (Hid 2%nat). reflexivity.
Defined.
